(** * A vehicle register with shared, mutable Person objects

    Shallow embedding of [posledni.py]: the classes [Person], [Vehicle] and
    [Register].  Python objects are mutable and shared: a [Vehicle] holds a
    reference to its owner, the register's [owners] list holds references to
    [Person] objects, and [vehicle_count] lives in the object, not in its
    (name, surname, age) value.  The model therefore keeps a store of objects
    and lets every list and field hold references into it. *)

From Stdlib Require Import ZArith Lia.
From stdpp Require Import base option list strings.

Local Open Scope Z_scope.

(** ** Objects *)

(** A reference is the position of an object in the store of its class. *)
Abbreviation ref := nat (only parsing).

(** [class Person]: [vehicle_count] is the private field [_vehicle_count],
    read through the property of the same name. *)
Record Person := mkPerson {
  name : string;
  surname : string;
  age : Z;
  vehicle_count : Z
}.

(** [class Vehicle]: [owner] is a reference to a [Person] object. *)
Record Vehicle := mkVehicle {
  registration_plate : string;
  creation_date : string;
  owner : ref
}.

(** [Person.__init__] *)
Definition Person_init (name surname : string) (age : Z) : Person :=
  mkPerson name surname age 0.

(** [Person.__eq__] *)
Definition Person_eq (self other : Person) : bool :=
  String.eqb (name self) (name other)
  && String.eqb (surname self) (surname other)
  && Z.eqb (age self) (age other).

(** [Person.increment_vehicle_count] *)
Definition increment_vehicle_count (self : Person) : Person :=
  mkPerson (name self) (surname self) (age self) (vehicle_count self + 1).

(** [Person.decrement_vehicle_count] *)
Definition decrement_vehicle_count (self : Person) : Person :=
  if 0 <? vehicle_count self
  then mkPerson (name self) (surname self) (age self) (vehicle_count self - 1)
  else self.

(** [Vehicle.__eq__] *)
Definition Vehicle_eq (self other : Vehicle) : bool :=
  String.eqb (registration_plate self) (registration_plate other).

(** [vehicle.owner = new_owner] *)
Definition set_owner (self : Vehicle) (new_owner : ref) : Vehicle :=
  mkVehicle (registration_plate self) (creation_date self) new_owner.

(** The two methods a caller can apply to a [Person] on its own. *)
Inductive count_call := Increment | Decrement.

Definition count_step (self : Person) (c : count_call) : Person :=
  match c with
  | Increment => increment_vehicle_count self
  | Decrement => decrement_vehicle_count self
  end.

(** ** The store and the register *)

(** The program state: every [Person] and [Vehicle] object constructed so
    far, and the two lists of the one [Register] object. *)
Record World := mkWorld {
  person_heap : list Person;
  vehicle_heap : list Vehicle;
  vehicles : list ref;
  owners : list ref
}.

(** [Register.__init__], before any object exists. *)
Definition init : World := mkWorld [] [] [] [].

(** ** Exceptions and the state monad *)

(** [ValueError] is what [list.remove] raises when nothing matches.
    [InvalidRef] stands for following a reference to an object that was
    never constructed; Python cannot do that, and [no_InvalidRef] below shows
    the model does not either. *)
Inductive exn := ValueError | InvalidRef.

Inductive outcome (A : Type) :=
| Return (a : A)
| Raise (e : exn).
Arguments Return {A} a.
Arguments Raise {A} e.

(** Reading the state: a result or an exception. *)
Definition R (A : Type) := World -> outcome A.

(** Running a method: a result or an exception, and the state at that
    point.  An exception does not roll the state back. *)
Definition M (A : Type) := World -> outcome A * World.

Definition rbind {A B} (m : outcome A) (k : A -> outcome B) : outcome B :=
  match m with
  | Return a => k a
  | Raise e => Raise e
  end.

Definition ret {A} (a : A) : M A := fun w => (Return a, w).

Definition bind {A B} (m : M A) (k : A -> M B) : M B :=
  fun w => match m w with
           | (Return a, w') => k a w'
           | (Raise e, w') => (Raise e, w')
           end.

Definition read {A} (r : R A) : M A := fun w => (r w, w).

Definition write (f : World -> World) : M unit := fun w => (Return tt, f w).

Notation "x <- m ;; k" := (bind m (fun x => k))
  (at level 100, m at next level, right associativity).
Notation "m ;; k" := (bind m (fun _ => k))
  (at level 100, right associativity).
Notation "x <-? m ;; k" := (rbind m (fun x => k))
  (at level 100, m at next level, right associativity).

(** ** Reading objects *)

Definition of_option {A} (o : option A) : outcome A :=
  match o with
  | Some a => Return a
  | None => Raise InvalidRef
  end.

Definition person_at (a : ref) : R Person :=
  fun w => of_option (person_heap w !! a).

Definition vehicle_at (a : ref) : R Vehicle :=
  fun w => of_option (vehicle_heap w !! a).

(** [a == b] on two [Person] objects. *)
Definition person_equal (a b : ref) : R bool :=
  fun w => p <-? person_at a w ;; q <-? person_at b w ;; Return (Person_eq p q).

(** [a == b] on two [Vehicle] objects. *)
Definition vehicle_equal (a b : ref) : R bool :=
  fun w => v <-? vehicle_at a w ;; u <-? vehicle_at b w ;; Return (Vehicle_eq v u).

(** ** Python's list operations on lists of objects

    [x in l] and [l.remove(x)] compare each element [el] with [x] by
    [el is x or el == x]. *)
Section ObjectLists.
Variable equal : ref -> ref -> R bool.

Definition matches (el x : ref) : R bool :=
  fun w => if Nat.eqb el x then Return true else equal el x w.

(** [x in l] *)
Fixpoint contains (x : ref) (l : list ref) : R bool :=
  fun w =>
    match l with
    | [] => Return false
    | el :: l' =>
        b <-? matches el x w ;;
        if b then Return true else contains x l' w
    end.

(** [l.remove(x)]: the list without its first match, or [ValueError]. *)
Fixpoint remove (x : ref) (l : list ref) : R (list ref) :=
  fun w =>
    match l with
    | [] => Raise ValueError
    | el :: l' =>
        b <-? matches el x w ;;
        if b then Return l' else
        r <-? remove x l' w ;; Return (el :: r)
    end.
End ObjectLists.

(** ** Writing objects and lists *)

Definition set_vehicles (l : list ref) (w : World) : World :=
  mkWorld (person_heap w) (vehicle_heap w) l (owners w).

Definition set_owners (l : list ref) (w : World) : World :=
  mkWorld (person_heap w) (vehicle_heap w) (vehicles w) l.

Definition set_person (a : ref) (p : Person) (w : World) : World :=
  mkWorld (<[a := p]> (person_heap w)) (vehicle_heap w) (vehicles w) (owners w).

Definition set_vehicle (a : ref) (v : Vehicle) (w : World) : World :=
  mkWorld (person_heap w) (<[a := v]> (vehicle_heap w)) (vehicles w) (owners w).

(** Calling a [Person] method that updates the object in place. *)
Definition person_call (f : Person -> Person) (a : ref) : M unit :=
  p <- read (person_at a) ;;
  write (set_person a (f p)).

(** [self.vehicles.append(x)] and [self.owners.append(x)] *)
Definition vehicles_append (x : ref) : M unit :=
  write (fun w => set_vehicles (vehicles w ++ [x]) w).

Definition owners_append (x : ref) : M unit :=
  write (fun w => set_owners (owners w ++ [x]) w).

(** [self.vehicles.remove(x)] and [self.owners.remove(x)] *)
Definition vehicles_remove (x : ref) : M unit :=
  l <- read (fun w => remove vehicle_equal x (vehicles w) w) ;;
  write (set_vehicles l).

Definition owners_remove (x : ref) : M unit :=
  l <- read (fun w => remove person_equal x (owners w) w) ;;
  write (set_owners l).

(** ** [class Register] *)

(** [Register._find_vehicle_by_plate]: the scan over a list of vehicles. *)
Fixpoint find_in (plate : string) (l : list ref) : R (option ref) :=
  fun w =>
    match l with
    | [] => Return None
    | vehicle :: l' =>
        v <-? vehicle_at vehicle w ;;
        if String.eqb (registration_plate v) plate
        then Return (Some vehicle)
        else find_in plate l' w
    end.

Definition _find_vehicle_by_plate (plate : string) : R (option ref) :=
  fun w => find_in plate (vehicles w) w.

(** [Register.insert_vehicle] *)
Definition insert_vehicle (vehicle : ref) : M Z :=
  dup <- read (fun w => contains vehicle_equal vehicle (vehicles w) w) ;;
  if dup then ret 0 else
  vehicles_append vehicle ;;
  v <- read (vehicle_at vehicle) ;;
  known <- read (fun w => contains person_equal (owner v) (owners w) w) ;;
  (if known then ret tt else owners_append (owner v)) ;;
  person_call increment_vehicle_count (owner v) ;;
  ret 1.

(** [Register.update_vehicle_owner] *)
Definition update_vehicle_owner (plate : string) (new_owner : ref) : M Z :=
  found <- read (_find_vehicle_by_plate plate) ;;
  match found with
  | None => ret 0
  | Some vehicle =>
      v <- read (vehicle_at vehicle) ;;
      same <- read (person_equal (owner v) new_owner) ;;
      if same then ret 0 else
      let old_owner := owner v in
      person_call decrement_vehicle_count old_owner ;;
      p <- read (person_at old_owner) ;;
      (if vehicle_count p =? 0 then owners_remove old_owner else ret tt) ;;
      write (set_vehicle vehicle (set_owner v new_owner)) ;;
      known <- read (fun w => contains person_equal new_owner (owners w) w) ;;
      (if known then ret tt else owners_append new_owner) ;;
      person_call increment_vehicle_count new_owner ;;
      ret 1
  end.

(** [Register.delete_vehicle] *)
Definition delete_vehicle (plate : string) : M Z :=
  found <- read (_find_vehicle_by_plate plate) ;;
  match found with
  | None => ret 0
  | Some vehicle =>
      v <- read (vehicle_at vehicle) ;;
      let owner := owner v in
      vehicles_remove vehicle ;;
      person_call decrement_vehicle_count owner ;;
      p <- read (person_at owner) ;;
      (if vehicle_count p =? 0 then owners_remove owner else ret tt) ;;
      ret 1
  end.

(** [Register.list_vehicles] and [Register.list_owners] hand out the lists
    themselves. *)
Definition list_vehicles : R (list ref) := fun w => Return (vehicles w).

Definition list_owners : R (list ref) := fun w => Return (owners w).

(** [Register.list_vehicle_by_owner]: the comprehension over a list. *)
Fixpoint by_owner (owner_ : ref) (l : list ref) : R (list ref) :=
  fun w =>
    match l with
    | [] => Return []
    | vehicle :: l' =>
        v <-? vehicle_at vehicle w ;;
        b <-? person_equal (owner v) owner_ w ;;
        r <-? by_owner owner_ l' w ;;
        Return (if b then vehicle :: r else r)
    end.

Definition list_vehicle_by_owner (owner_ : ref) : R (list ref) :=
  fun w => by_owner owner_ (vehicles w) w.

(** ** Callers *)

(** What a caller can do: construct objects and call the three mutating
    methods of the register. *)
Inductive call :=
| NewPerson (name surname : string) (age : Z)
| NewVehicle (registration_plate creation_date : string) (owner : ref)
| InsertVehicle (vehicle : ref)
| UpdateVehicleOwner (registration_plate : string) (new_owner : ref)
| DeleteVehicle (registration_plate : string).

Definition new_person (p : Person) (w : World) : World :=
  mkWorld (person_heap w ++ [p]) (vehicle_heap w) (vehicles w) (owners w).

Definition new_vehicle (v : Vehicle) (w : World) : World :=
  mkWorld (person_heap w) (vehicle_heap w ++ [v]) (vehicles w) (owners w).

(** A caller can only pass objects that exist. *)
Definition call_ok (c : call) (w : World) : bool :=
  match c with
  | NewPerson _ _ _ => true
  | NewVehicle _ _ o => bool_decide (o < length (person_heap w))%nat
  | InsertVehicle v => bool_decide (v < length (vehicle_heap w))%nat
  | UpdateVehicleOwner _ o => bool_decide (o < length (person_heap w))%nat
  | DeleteVehicle _ => true
  end.

(** The state a call leaves behind, whether it returned or raised. *)
Definition exec (c : call) (w : World) : World :=
  match c with
  | NewPerson n s a => new_person (Person_init n s a) w
  | NewVehicle p d o => new_vehicle (mkVehicle p d o) w
  | InsertVehicle v => snd (insert_vehicle v w)
  | UpdateVehicleOwner p o => snd (update_vehicle_owner p o w)
  | DeleteVehicle p => snd (delete_vehicle p w)
  end.

Fixpoint run (cs : list call) (w : World) : option World :=
  match cs with
  | [] => Some w
  | c :: cs' => if call_ok c w then run cs' (exec c w) else None
  end.

Definition reachable (w : World) : Prop := exists cs, run cs init = Some w.

(** ** Pure views of the store

    What the comparisons compute when both references point to existing
    objects; used to state and prove the properties below. *)

(** [a == b] for two Person objects of the store [h]. *)
Definition same_person (h : list Person) (a b : ref) : bool :=
  match h !! a, h !! b with
  | Some p, Some q => Person_eq p q
  | _, _ => false
  end.

(** [a == b] for two Vehicle objects of the store [h]. *)
Definition same_plate (h : list Vehicle) (a b : ref) : bool :=
  match h !! a, h !! b with
  | Some v, Some u => Vehicle_eq v u
  | _, _ => false
  end.

(** [a.registration_plate == plate] *)
Definition has_plate (h : list Vehicle) (plate : string) (a : ref) : bool :=
  match h !! a with
  | Some v => String.eqb (registration_plate v) plate
  | None => false
  end.

(** [a.owner == o] *)
Definition owned_by (w : World) (o : ref) (a : ref) : bool :=
  match vehicle_heap w !! a with
  | Some v => same_person (person_heap w) (owner v) o
  | None => false
  end.

(** A list without the first element that passes the test. *)
Fixpoint remove_first (f : ref -> bool) (l : list ref) : option (list ref) :=
  match l with
  | [] => None
  | el :: l' => if f el then Some l' else cons el <$> remove_first f l'
  end.

(** Every reference held by the register or by a vehicle points to an
    object that exists.  Python guarantees this of every state. *)
Record well_formed (w : World) : Prop := mk_well_formed {
  wf_vehicles : Forall (fun a => a < length (vehicle_heap w))%nat (vehicles w);
  wf_owners : Forall (fun a => a < length (person_heap w))%nat (owners w);
  wf_owner :
    Forall (fun v => owner v < length (person_heap w))%nat (vehicle_heap w)
}.

(** The counter of the object at [a]. *)
Definition count_of (w : World) (a : ref) : Z :=
  match person_heap w !! a with
  | Some p => vehicle_count p
  | None => 0
  end.

(** [o in self.owners] *)
Definition known_owner (w : World) (o : ref) : bool :=
  existsb (fun el => same_person (person_heap w) el o) (owners w).

(** [if o not in self.owners: self.owners.append(o)] *)
Definition add_owner (o : ref) (w : World) : World :=
  if known_owner w o then w else set_owners (owners w ++ [o]) w.

(** A method call on the object at [a]. *)
Definition bump (f : Person -> Person) (a : ref) (w : World) : World :=
  mkWorld (alter f a (person_heap w)) (vehicle_heap w) (vehicles w) (owners w).

(** [o.decrement_vehicle_count()] followed by
    [if o.vehicle_count == 0: self.owners.remove(o)] *)
Definition release (o : ref) (w : World) : outcome unit * World :=
  let w1 := bump decrement_vehicle_count o w in
  if count_of w1 o =? 0 then
    match remove_first (fun el => same_person (person_heap w1) el o) (owners w1) with
    | Some l => (Return tt, set_owners l w1)
    | None => (Raise ValueError, w1)
    end
  else (Return tt, w1).

(** The registration plate of the vehicle object at [a]. *)
Definition plate_of (h : list Vehicle) (a : ref) : option string :=
  registration_plate <$> h !! a.

(** The plates of the registered vehicles, in list order. *)
Definition plates (w : World) : list (option string) :=
  plate_of (vehicle_heap w) <$> vehicles w.

(** A method that keeps name, surname and age, as the two counter methods
    do. *)
Definition keeps_identity (f : Person -> Person) : Prop :=
  forall p, name (f p) = name p /\ surname (f p) = surname p /\ age (f p) = age p.

(** [vehicle.owner = new_owner], then the new owner is listed if need be
    and its counter incremented: the second half of
    [update_vehicle_owner]. *)
Definition reassigned (vehicle : ref) (v : Vehicle) (new_owner : ref) (w : World) : World :=
  bump increment_vehicle_count new_owner
    (add_owner new_owner (set_vehicle vehicle (set_owner v new_owner) w)).

(** The values returned (or exceptions raised) by the register calls of a
    sequence, in order. *)
Fixpoint returns (cs : list call) (w : World) : list (outcome Z) :=
  match cs with
  | [] => []
  | c :: cs' =>
      match c with
      | InsertVehicle v => [fst (insert_vehicle v w)]
      | UpdateVehicleOwner p o => [fst (update_vehicle_owner p o w)]
      | DeleteVehicle p => [fst (delete_vehicle p w)]
      | _ => []
      end ++ returns cs' (exec c w)
  end.

(** The test script at the end of [posledni.py], up to its last delete:
    [person1], [person2], [car1] .. [car4], then the calls it asserts on. *)
Definition test_objects : list call :=
  [NewPerson "John" "Doe" 20; NewPerson "Alice" "Doe" 22;
   NewVehicle "abc0" "20221122" 0%nat; NewVehicle "abc1" "20221123" 0%nat;
   NewVehicle "abc0" "20221122" 0%nat; NewVehicle "xyz" "20221124" 1%nat].

Definition test_insertion : list call :=
  [InsertVehicle 0%nat; InsertVehicle 1%nat; InsertVehicle 2%nat;
   InsertVehicle 3%nat].

Definition test_update : list call :=
  [UpdateVehicleOwner "abc1" 0%nat; UpdateVehicleOwner "not in register" 0%nat;
   UpdateVehicleOwner "abc1" 1%nat; UpdateVehicleOwner "abc0" 1%nat].

Definition test_delete : list call :=
  [DeleteVehicle "not in register"; DeleteVehicle "abc0"; DeleteVehicle "abc1";
   DeleteVehicle "xyz"].

(** ** The register's invariants, as the specification states them *)

(** Invariant 2: the owners list holds exactly the distinct Persons (by
    [Person.__eq__]) that own a registered vehicle: no duplicates, no
    extras, no omissions. *)
Record owners_exact (w : World) : Prop := mk_owners_exact {
  owners_distinct :
    forall i j a b,
      owners w !! i = Some a -> owners w !! j = Some b ->
      same_person (person_heap w) a b = true -> i = j;
  owners_no_extra :
    forall a, a ∈ owners w ->
      exists vehicle, vehicle ∈ vehicles w /\ owned_by w a vehicle = true;
  owners_no_omission :
    forall vehicle v,
      vehicle ∈ vehicles w -> vehicle_heap w !! vehicle = Some v ->
      known_owner w (owner v) = true
}.

(** Invariant 3: the counter of every Person in the owners list is the
    number of registered vehicles whose owner equals that Person. *)
Definition counts_exact (w : World) : Prop :=
  forall a, a ∈ owners w ->
    count_of w a = Z.of_nat (length (List.filter (owned_by w a) (vehicles w))).

(** ** Two Person objects with the same name, surname and age

    [p1 = Person("John", "Doe", 20)], [p2 = Person("John", "Doe", 20)],
    [alice = Person("Alice", "Doe", 22)]; vehicle "abc0" belongs to [p1] and
    vehicle "abc1" to [p2]; both vehicles are inserted. *)
Definition two_johns : list call :=
  [NewPerson "John" "Doe" 20; NewPerson "John" "Doe" 20;
   NewPerson "Alice" "Doe" 22;
   NewVehicle "abc0" "20221122" 0%nat; NewVehicle "abc1" "20221123" 1%nat;
   InsertVehicle 0%nat; InsertVehicle 1%nat].

(** The state after [two_johns]. *)
Definition two_johns_registered : World :=
  mkWorld
    [mkPerson "John" "Doe" 20 1; mkPerson "John" "Doe" 20 1;
     mkPerson "Alice" "Doe" 22 0]
    [mkVehicle "abc0" "20221122" 0%nat; mkVehicle "abc1" "20221123" 1%nat]
    [0%nat; 1%nat] [0%nat].

(** The state after [two_johns] and [delete_vehicle("abc0")]. *)
Definition second_john_left : World :=
  mkWorld
    [mkPerson "John" "Doe" 20 0; mkPerson "John" "Doe" 20 1;
     mkPerson "Alice" "Doe" 22 0]
    [mkVehicle "abc0" "20221122" 0%nat; mkVehicle "abc1" "20221123" 1%nat]
    [1%nat] [].

(** ** One object per Person

    The discipline of the repository's own tests: no two Person objects of
    the store are equal, so [==] on Persons is object identity. *)
Definition distinct_persons (h : list Person) : Prop :=
  forall a b,
    (a < length h)%nat -> (b < length h)%nat ->
    same_person h a b = true -> a = b.

(** [vehicle.owner is a] *)
Definition owner_is (h : list Vehicle) (a : ref) (vehicle : ref) : bool :=
  match h !! vehicle with
  | Some v => Nat.eqb (owner v) a
  | None => false
  end.

(** How many elements of a list pass a test. *)
Definition tally (f : ref -> bool) (l : list ref) : Z :=
  Z.of_nat (length (List.filter f l)).

(** [if o not in self.owners: self.owners.append(o)] followed by
    [o.increment_vehicle_count()] *)
Definition acquire (o : ref) (w : World) : World :=
  bump increment_vehicle_count o (add_owner o w).

(** The owners list and the counters agree with each other. *)
Record ledger (w : World) : Prop := mk_ledger {
  ledger_owners : NoDup (owners w);
  ledger_member : forall a, a ∈ owners w <-> 0 < count_of w a
}.

(** The counter of every object is the number of registered vehicles that
    point to it. *)
Definition counted (w : World) : Prop :=
  forall a, count_of w a = tally (owner_is (vehicle_heap w) a) (vehicles w).

(** A state in which the lists, the objects and the counters agree. *)
Record consistent (w : World) : Prop := mk_consistent {
  consistent_refs : well_formed w;
  consistent_plates : NoDup (plates w);
  consistent_ledger : ledger w;
  consistent_counted : counted w
}.

(** The store [h'] has the objects of [h], with the same names, surnames
    and ages, and possibly more. *)
Definition same_identities (h h' : list Person) : Prop :=
  (length h <= length h')%nat /\
  forall a b, (a < length h)%nat -> (b < length h)%nat ->
    same_person h' a b = same_person h a b.

(** The scenario of the repository's tests: two vehicles of John Doe and
    one of Alice Doe are inserted, then "abc1" goes to Alice. *)
Definition register_scenario : list call :=
  [NewPerson "John" "Doe" 20; NewPerson "Alice" "Doe" 22;
   NewVehicle "abc0" "20221122" 0%nat; NewVehicle "abc1" "20221123" 0%nat;
   NewVehicle "xyz" "20221124" 1%nat;
   InsertVehicle 0%nat; InsertVehicle 1%nat; InsertVehicle 2%nat;
   UpdateVehicleOwner "abc1" 1%nat].

(** ** Further notions used by the properties of the whole file *)

(** How many [increment_vehicle_count] calls a sequence holds. *)
Definition increments (cs : list count_call) : Z :=
  Z.of_nat (length (List.filter (fun c => if c is Increment then true else false) cs)).

(** No element of [l] equals (by [Person.__eq__]) an element after it. *)
Fixpoint no_equal (h : list Person) (l : list ref) : Prop :=
  match l with
  | [] => True
  | a :: l' => Forall (fun b => same_person h a b = false) l' /\ no_equal h l'
  end.

(** Did the call raise? *)
Definition is_raise {A} (o : outcome A) : bool :=
  match o with
  | Return _ => false
  | Raise _ => true
  end.

Definition raises (c : call) (w : World) : bool :=
  match c with
  | InsertVehicle v => is_raise (fst (insert_vehicle v w))
  | UpdateVehicleOwner p o => is_raise (fst (update_vehicle_owner p o w))
  | DeleteVehicle p => is_raise (fst (delete_vehicle p w))
  | _ => false
  end.

(** A sequence of calls none of which raises. *)
Fixpoint run_quiet (cs : list call) (w : World) : option World :=
  match cs with
  | [] => Some w
  | c :: cs' =>
      if call_ok c w && negb (raises c w) then run_quiet cs' (exec c w) else None
  end.

(** Name, surname and age of a Person; plate and date of a Vehicle. *)
Definition identity (p : Person) : string * string * Z :=
  (name p, surname p, age p).

Definition registration (v : Vehicle) : string * string :=
  (registration_plate v, creation_date v).

(** What the calls do to the store of Person objects: a counter method is
    called on an object, or a fresh Person is constructed. *)
Inductive person_steps : list Person -> list Person -> Prop :=
| steps_none h : person_steps h h
| steps_call h h' a c :
    person_steps h h' ->
    person_steps h (alter (fun p => count_step p c) a h')
| steps_new h h' n s a :
    person_steps h h' ->
    person_steps h (h' ++ [Person_init n s a]).

(** The counter of every object is at least 0 and at most the number of
    registered vehicles that point to it. *)
Definition bounded (w : World) : Prop :=
  forall a,
    0 <= count_of w a <= tally (owner_is (vehicle_heap w) a) (vehicles w).

(** What [decrement_vehicle_count] on the object at [o] takes off the
    counter of the object at [a]. *)
Definition taken_off (w : World) (o a : ref) : Z :=
  if Nat.eqb a o && (0 <? count_of w o) then 1 else 0.

(** The state after [register_scenario]. *)
Definition scenario_state : World :=
  mkWorld
    [mkPerson "John" "Doe" 20 1; mkPerson "Alice" "Doe" 22 2]
    [mkVehicle "abc0" "20221122" 0%nat; mkVehicle "abc1" "20221123" 1%nat;
     mkVehicle "xyz" "20221124" 1%nat]
    [0; 1; 2]%nat [0; 1]%nat.

(** [scenario_state] with one more Vehicle object, not inserted. *)
Definition spare_vehicle_state : World :=
  mkWorld (person_heap scenario_state)
    (vehicle_heap scenario_state ++ [mkVehicle "new" "20230101" 0%nat])
    (vehicles scenario_state) (owners scenario_state).

(** * Properties *)

Lemma Person_eq_refl (p : Person) : Person_eq p p = true.
Proof.
  unfold Person_eq. by rewrite !String.eqb_refl, Z.eqb_refl.
Qed.

Lemma Person_eq_true (p q : Person) :
  Person_eq p q = true <->
  name p = name q /\ surname p = surname q /\ age p = age q.
Proof.
  unfold Person_eq. rewrite !andb_true_iff, !String.eqb_eq, Z.eqb_eq. tauto.
Qed.

(** ** The repository's own tests *)

Example test_insertion_asserts :
  returns (test_objects ++ test_insertion) init
  = [Return 1; Return 1; Return 0; Return 1] /\
  exists w,
    run (test_objects ++ test_insertion) init = Some w /\
    vehicles w = [0; 1; 3]%nat /\ owners w = [0; 1]%nat /\
    count_of w 0%nat = 2 /\ count_of w 1%nat = 1 /\
    list_vehicle_by_owner 0%nat w = Return [0; 1]%nat.
Proof. split; [reflexivity|]. eexists. by repeat split. Qed.

Example test_update_asserts :
  returns (test_objects ++ test_insertion ++ test_update) init
  = [Return 1; Return 1; Return 0; Return 1;
     Return 0; Return 0; Return 1; Return 1] /\
  exists w,
    run (test_objects ++ test_insertion ++ test_update) init = Some w /\
    vehicles w = [0; 1; 3]%nat /\ owners w = [1]%nat /\
    count_of w 0%nat = 0 /\ count_of w 1%nat = 3.
Proof. split; [reflexivity|]. eexists. by repeat split. Qed.

Example test_delete_asserts :
  returns (test_objects ++ test_insertion ++ test_update ++ test_delete) init
  = [Return 1; Return 1; Return 0; Return 1;
     Return 0; Return 0; Return 1; Return 1;
     Return 0; Return 1; Return 1; Return 1] /\
  exists w,
    run (test_objects ++ test_insertion ++ test_update ++ test_delete) init
    = Some w /\
    vehicles w = [] /\ owners w = [].
Proof. split; [reflexivity|]. eexists. by repeat split. Qed.

(** ** The counter of a Person *)

Lemma decrement_vehicle_count_nonneg (p : Person) :
  0 <= vehicle_count p -> 0 <= vehicle_count (decrement_vehicle_count p).
Proof.
  unfold decrement_vehicle_count. intros Hp.
  destruct (Z.ltb_spec 0 (vehicle_count p)); simpl; lia.
Qed.

Lemma count_step_nonneg (p : Person) (c : count_call) :
  0 <= vehicle_count p -> 0 <= vehicle_count (count_step p c).
Proof.
  destruct c; simpl; intros Hp.
  - lia.
  - by apply decrement_vehicle_count_nonneg.
Qed.

Lemma count_calls_nonneg (cs : list count_call) (p : Person) :
  0 <= vehicle_count p -> 0 <= vehicle_count (foldl count_step p cs).
Proof.
  revert p. induction cs as [|c cs IH]; intros p Hp; simpl; [done|].
  apply IH. by apply count_step_nonneg.
Qed.

(** C10: [decrement_vehicle_count] takes exactly one off a positive counter
    and returns the object unchanged otherwise (it is a total function: no
    error is signalled); hence after any sequence of increments and
    decrements applied to a freshly constructed Person the counter is at
    least 0. *)
Theorem decrement_vehicle_count_clamped
    (p : Person) (n s : string) (a : Z) (cs : list count_call) :
  (0 < vehicle_count p ->
     decrement_vehicle_count p
     = mkPerson (name p) (surname p) (age p) (vehicle_count p - 1)) /\
  (vehicle_count p <= 0 -> decrement_vehicle_count p = p) /\
  0 <= vehicle_count (foldl count_step (Person_init n s a) cs).
Proof.
  split; [|split].
  - intros Hpos. unfold decrement_vehicle_count.
    destruct (Z.ltb_spec 0 (vehicle_count p)); [done | lia].
  - intros Hle. unfold decrement_vehicle_count.
    destruct (Z.ltb_spec 0 (vehicle_count p)); [lia | done].
  - apply count_calls_nonneg. simpl. lia.
Qed.

Lemma decrement_vehicle_count_clamped_witness :
  decrement_vehicle_count (mkPerson "John" "Doe" 20 2) = mkPerson "John" "Doe" 20 1
  /\ decrement_vehicle_count (mkPerson "John" "Doe" 20 0) = mkPerson "John" "Doe" 20 0
  /\ 0 <= vehicle_count
            (foldl count_step (Person_init "John" "Doe" 20)
               [Decrement; Increment; Decrement; Decrement]).
Proof.
  split; [|split].
  - apply (decrement_vehicle_count_clamped (mkPerson "John" "Doe" 20 2)
             "John" "Doe" 20 []).
    simpl. lia.
  - apply (decrement_vehicle_count_clamped (mkPerson "John" "Doe" 20 0)
             "John" "Doe" 20 []).
    simpl. lia.
  - apply (decrement_vehicle_count_clamped (mkPerson "John" "Doe" 20 0)
             "John" "Doe" 20 [Decrement; Increment; Decrement; Decrement]).
Defined.

(** ** Stepping through a method *)

Ltac unfold_methods :=
  unfold insert_vehicle, update_vehicle_owner, delete_vehicle,
    vehicles_append, owners_append, vehicles_remove, owners_remove,
    person_call in *.

Ltac unfold_monad := unfold bind, read, write, ret in *; simpl in *.

(** ** Rejected calls *)

Lemma insert_vehicle_rejected (vehicle : ref) (w w' : World) :
  insert_vehicle vehicle w = (Return 0, w') ->
  w' = w /\ contains vehicle_equal vehicle (vehicles w) w = Return true.
Proof.
  unfold_methods. unfold_monad. intros H.
  repeat case_match; simplify_eq; done.
Qed.

Lemma update_vehicle_owner_rejected (plate : string) (new_owner : ref) (w w' : World) :
  update_vehicle_owner plate new_owner w = (Return 0, w') ->
  w' = w /\
  (_find_vehicle_by_plate plate w = Return None \/
   exists vehicle v,
     _find_vehicle_by_plate plate w = Return (Some vehicle) /\
     vehicle_at vehicle w = Return v /\
     person_equal (owner v) new_owner w = Return true).
Proof.
  unfold_methods. unfold_monad. intros H.
  repeat case_match; simplify_eq; eauto 10.
Qed.

Lemma delete_vehicle_rejected (plate : string) (w w' : World) :
  delete_vehicle plate w = (Return 0, w') ->
  w' = w /\ _find_vehicle_by_plate plate w = Return None.
Proof.
  unfold_methods. unfold_monad. intros H.
  repeat case_match; simplify_eq; eauto.
Qed.

(** C4: a call that returns 0 leaves the whole state as it was (the
    vehicles list, the owners list, every object and so every counter), and
    0 is returned only for a duplicate plate (insert), for an unknown plate or
    an unchanged owner (update) and for an unknown plate (delete). *)
Theorem rejected_call_changes_nothing (w w' : World) :
  (forall vehicle,
     insert_vehicle vehicle w = (Return 0, w') ->
     w' = w /\ contains vehicle_equal vehicle (vehicles w) w = Return true) /\
  (forall plate new_owner,
     update_vehicle_owner plate new_owner w = (Return 0, w') ->
     w' = w /\
     (_find_vehicle_by_plate plate w = Return None \/
      exists vehicle v,
        _find_vehicle_by_plate plate w = Return (Some vehicle) /\
        vehicle_at vehicle w = Return v /\
        person_equal (owner v) new_owner w = Return true)) /\
  (forall plate,
     delete_vehicle plate w = (Return 0, w') ->
     w' = w /\ _find_vehicle_by_plate plate w = Return None).
Proof.
  split; [|split].
  - intros vehicle. apply insert_vehicle_rejected.
  - intros plate new_owner. apply update_vehicle_owner_rejected.
  - intros plate. apply delete_vehicle_rejected.
Qed.

Lemma rejected_call_changes_nothing_witness :
  let w := mkWorld [mkPerson "John" "Doe" 20 1; mkPerson "Alice" "Doe" 22 0]
             [mkVehicle "abc0" "20221122" 0%nat; mkVehicle "abc0" "20221122" 0%nat]
             [0%nat] [0%nat] in
  (w = w /\ contains vehicle_equal 1%nat (vehicles w) w = Return true) /\
  (w = w /\
   (_find_vehicle_by_plate "abc0" w = Return None \/
    exists vehicle v,
      _find_vehicle_by_plate "abc0" w = Return (Some vehicle) /\
      vehicle_at vehicle w = Return v /\
      person_equal (owner v) 0%nat w = Return true)) /\
  (w = w /\ _find_vehicle_by_plate "xyz" w = Return None).
Proof.
  intros w. split; [|split].
  - apply (proj1 (rejected_call_changes_nothing w w) 1%nat). reflexivity.
  - apply (proj1 (proj2 (rejected_call_changes_nothing w w)) "abc0" 0%nat).
    reflexivity.
  - apply (proj2 (proj2 (rejected_call_changes_nothing w w)) "xyz").
    reflexivity.
Defined.

(** ** What the list operations compute

    On references to existing objects the comparisons never fail, and the
    list operations are the usual ones with a boolean test. *)

Lemma same_person_refl (h : list Person) (a : ref) :
  (a < length h)%nat -> same_person h a a = true.
Proof.
  intros Ha. unfold same_person.
  destruct (lookup_lt_is_Some_2 h a Ha) as [p ->].
  apply Person_eq_refl.
Qed.

Lemma same_plate_refl (h : list Vehicle) (a : ref) :
  (a < length h)%nat -> same_plate h a a = true.
Proof.
  intros Ha. unfold same_plate.
  destruct (lookup_lt_is_Some_2 h a Ha) as [v ->].
  apply String.eqb_refl.
Qed.

Lemma person_equal_valid (w : World) (a b : ref) :
  (a < length (person_heap w))%nat -> (b < length (person_heap w))%nat ->
  person_equal a b w = Return (same_person (person_heap w) a b).
Proof.
  intros Ha Hb. unfold person_equal, person_at, same_person.
  destruct (lookup_lt_is_Some_2 _ _ Ha) as [p ->].
  destruct (lookup_lt_is_Some_2 _ _ Hb) as [q ->]. done.
Qed.

Lemma vehicle_equal_valid (w : World) (a b : ref) :
  (a < length (vehicle_heap w))%nat -> (b < length (vehicle_heap w))%nat ->
  vehicle_equal a b w = Return (same_plate (vehicle_heap w) a b).
Proof.
  intros Ha Hb. unfold vehicle_equal, vehicle_at, same_plate.
  destruct (lookup_lt_is_Some_2 _ _ Ha) as [p ->].
  destruct (lookup_lt_is_Some_2 _ _ Hb) as [q ->]. done.
Qed.

Section ObjectListFacts.
Variable equal : ref -> ref -> R bool.
Variable rel : ref -> ref -> bool.
Variable valid : ref -> Prop.
Variable w : World.
Hypothesis equal_valid :
  forall a b, valid a -> valid b -> equal a b w = Return (rel a b).
Hypothesis rel_refl : forall a, valid a -> rel a a = true.

Lemma matches_valid (el x : ref) :
  valid el -> valid x -> matches equal el x w = Return (rel el x).
Proof.
  intros Hel Hx. unfold matches.
  destruct (Nat.eqb_spec el x) as [->|_]; [|by apply equal_valid].
  by rewrite rel_refl.
Qed.

Lemma contains_valid (x : ref) (l : list ref) :
  valid x -> Forall valid l ->
  contains equal x l w = Return (existsb (fun el => rel el x) l).
Proof.
  intros Hx Hl. induction Hl as [|el l Hel Hl IH]; simpl; [done|].
  rewrite matches_valid by done. simpl.
  destruct (rel el x); [done | by rewrite IH].
Qed.

Lemma remove_valid (x : ref) (l : list ref) :
  valid x -> Forall valid l ->
  remove equal x l w
  = match remove_first (fun el => rel el x) l with
    | Some l' => Return l'
    | None => Raise ValueError
    end.
Proof.
  intros Hx Hl. induction Hl as [|el l Hel Hl IH]; simpl; [done|].
  rewrite matches_valid by done. simpl.
  destruct (rel el x); [done|]. rewrite IH.
  by destruct (remove_first _ l).
Qed.
End ObjectListFacts.

Lemma find_in_valid (plate : string) (l : list ref) (w : World) :
  Forall (fun a => a < length (vehicle_heap w))%nat l ->
  find_in plate l w = Return (List.find (has_plate (vehicle_heap w) plate) l).
Proof.
  intros Hl. induction Hl as [|a l Ha Hl IH]; simpl; [done|].
  unfold vehicle_at, has_plate at 1.
  destruct (lookup_lt_is_Some_2 _ _ Ha) as [v ->]. simpl.
  by destruct (String.eqb (registration_plate v) plate).
Qed.

(** ** What the methods compute on a well-formed state *)

Lemma person_call_valid (f : Person -> Person) (a : ref) (w : World) :
  (a < length (person_heap w))%nat ->
  person_call f a w = (Return tt, bump f a w).
Proof.
  intros Ha. unfold person_call, bind, read, write, person_at, bump, set_person.
  destruct (lookup_lt_is_Some_2 _ _ Ha) as [p Hp]. rewrite Hp. simpl.
  do 2 f_equal. f_equal.
  apply list_eq. intros i. destruct (decide (i = a)) as [->|Hne].
  - rewrite list_lookup_insert_eq, list_lookup_alter_eq, ?Hp; done.
  - by rewrite list_lookup_insert_ne, list_lookup_alter_ne.
Qed.

Lemma increment_keeps_identity : keeps_identity increment_vehicle_count.
Proof. by intros p. Qed.

Lemma decrement_keeps_identity : keeps_identity decrement_vehicle_count.
Proof.
  intros p. unfold decrement_vehicle_count.
  by destruct (0 <? vehicle_count p).
Qed.

Lemma Person_eq_identity (p p' q q' : Person) :
  name p' = name p -> surname p' = surname p -> age p' = age p ->
  name q' = name q -> surname q' = surname q -> age q' = age q ->
  Person_eq p' q' = Person_eq p q.
Proof. unfold Person_eq. by intros -> -> -> -> -> ->. Qed.

Lemma lookup_alter_identity (f : Person -> Person) (a : ref) (h : list Person) (x : ref) :
  keeps_identity f ->
  match alter f a h !! x, h !! x with
  | Some p', Some p =>
      name p' = name p /\ surname p' = surname p /\ age p' = age p
  | None, None => True
  | _, _ => False
  end.
Proof.
  intros Hf. destruct (decide (a = x)) as [->|Hne].
  - rewrite list_lookup_alter_eq. destruct (h !! x); simpl; [apply Hf | done].
  - rewrite list_lookup_alter_ne by done. by destruct (h !! x).
Qed.

Lemma same_person_alter (f : Person -> Person) (a : ref) (h : list Person) (x y : ref) :
  keeps_identity f -> same_person (alter f a h) x y = same_person h x y.
Proof.
  intros Hf. unfold same_person.
  pose proof (lookup_alter_identity f a h x Hf) as Hx.
  pose proof (lookup_alter_identity f a h y Hf) as Hy.
  destruct (alter f a h !! x), (h !! x); try done;
    destruct (alter f a h !! y), (h !! y); try done.
  apply Person_eq_identity; tauto.
Qed.

Lemma contains_owner_valid (w : World) (o : ref) :
  well_formed w -> (o < length (person_heap w))%nat ->
  contains person_equal o (owners w) w = Return (known_owner w o).
Proof.
  intros Hw Ho. unfold known_owner.
  apply (contains_valid person_equal (same_person (person_heap w))
           (fun a => a < length (person_heap w))%nat).
  - apply person_equal_valid.
  - apply same_person_refl.
  - done.
  - apply Hw.
Qed.

Lemma insert_vehicle_run (w : World) (vehicle : ref) (v : Vehicle) :
  well_formed w -> vehicle_heap w !! vehicle = Some v ->
  insert_vehicle vehicle w
  = if existsb (fun el => same_plate (vehicle_heap w) el vehicle) (vehicles w)
    then (Return 0, w)
    else (Return 1,
          bump increment_vehicle_count (owner v)
            (add_owner (owner v) (set_vehicles (vehicles w ++ [vehicle]) w))).
Proof.
  intros Hw Hv.
  assert (vehicle < length (vehicle_heap w))%nat as Hlt
    by (eapply lookup_lt_Some; eauto).
  assert (owner v < length (person_heap w))%nat as Ho.
  { eapply (Forall_lookup_1 _ _ _ _ (wf_owner w Hw)); eauto. }
  unfold insert_vehicle. unfold bind at 1. unfold read at 1.
  rewrite (contains_valid vehicle_equal (same_plate (vehicle_heap w))
             (fun a => a < length (vehicle_heap w))%nat);
    [|apply vehicle_equal_valid|apply same_plate_refl|done|apply Hw].
  destruct (existsb _ (vehicles w)); [done|].
  unfold vehicles_append. unfold bind at 1. unfold write at 1.
  unfold bind at 1. unfold read at 1. unfold vehicle_at. simpl. rewrite Hv. simpl.
  set (w1 := set_vehicles (vehicles w ++ [vehicle]) w).
  assert (well_formed w1) as Hw1.
  { destruct Hw. split; simpl; try done.
    apply Forall_app. split; [done|]. by apply Forall_singleton. }
  unfold bind at 1. unfold read at 1.
  rewrite (contains_owner_valid w1) by done.
  unfold add_owner.
  destruct (known_owner w1 (owner v)).
  - unfold bind at 1. unfold ret at 1. unfold bind.
    by rewrite person_call_valid.
  - unfold bind at 1. unfold owners_append, write at 1. unfold bind.
    by rewrite person_call_valid.
Qed.

Lemma remove_first_split (f : ref -> bool) (l l' : list ref) :
  remove_first f l = Some l' ->
  exists l1 x l2,
    l = l1 ++ x :: l2 /\ l' = l1 ++ l2 /\ f x = true /\
    Forall (fun y => f y = false) l1.
Proof.
  revert l'. induction l as [|a l IH]; intros l' Hrem; simpl in *; [done|].
  destruct (f a) eqn:Hfa.
  - simplify_eq. by exists [], a, l'.
  - destruct (remove_first f l) as [r|]; simplify_eq. simpl in *. simplify_eq.
    destruct (IH r eq_refl) as (l1 & x & l2 & -> & -> & Hx & Hl1).
    exists (a :: l1), x, l2. repeat split; try done. by constructor.
Qed.

Lemma remove_first_None (f : ref -> bool) (l : list ref) :
  remove_first f l = None <-> Forall (fun y => f y = false) l.
Proof.
  induction l as [|a l IH]; simpl.
  - split; [constructor | done].
  - rewrite Forall_cons. destruct (f a).
    + split; [done | by intros [? _]].
    + destruct (remove_first f l); simpl.
      * split; [done|]. intros [_ Hl]. by apply IH in Hl.
      * split; [|done]. intros _. split; [done|]. by apply IH.
Qed.

Lemma remove_first_sublist (f : ref -> bool) (l l' : list ref) :
  remove_first f l = Some l' -> l' `sublist_of` l.
Proof.
  intros (l1 & x & l2 & -> & -> & _)%remove_first_split.
  apply sublist_app; [done|]. by apply sublist_cons.
Qed.

Lemma Forall_sublist_of {A} (P : A -> Prop) (l l' : list A) :
  l' `sublist_of` l -> Forall P l -> Forall P l'.
Proof.
  rewrite !Forall_forall. intros Hsub Hl x Hx. apply Hl.
  by eapply elem_of_sublist.
Qed.

(** What [release] leaves alone. *)
Lemma release_frame (o : ref) (w w1 : World) (r : outcome unit) :
  release o w = (r, w1) ->
  person_heap w1 = alter decrement_vehicle_count o (person_heap w) /\
  vehicle_heap w1 = vehicle_heap w /\
  vehicles w1 = vehicles w /\
  owners w1 `sublist_of` owners w.
Proof.
  unfold release. intros Hrel.
  destruct (count_of _ _ =? 0); [|by simplify_eq].
  destruct (remove_first _ _) as [l|] eqn:Hrem; simplify_eq; simpl in *;
    repeat split; try done.
  by eapply remove_first_sublist.
Qed.

Lemma release_well_formed (o : ref) (w w1 : World) (r : outcome unit) :
  well_formed w -> release o w = (r, w1) -> well_formed w1.
Proof.
  intros Hw (Hp & Hv & Hl & Ho)%release_frame.
  split; rewrite ?Hp, ?Hv, ?Hl, ?length_alter; try apply Hw.
  eapply Forall_sublist_of; [done | apply Hw].
Qed.

Lemma release_run {B} (o : ref) (k : M B) (w : World) :
  well_formed w -> (o < length (person_heap w))%nat ->
  (person_call decrement_vehicle_count o ;;
   p <- read (person_at o) ;;
   (if vehicle_count p =? 0 then owners_remove o else ret tt) ;;
   k) w
  = match release o w with
    | (Return _, w1) => k w1
    | (Raise e, w1) => (Raise e, w1)
    end.
Proof.
  intros Hw Ho. unfold bind at 1. rewrite person_call_valid by done.
  set (w1 := bump decrement_vehicle_count o w).
  assert (o < length (person_heap w1))%nat as Ho1
    by (subst w1; simpl; by rewrite length_alter).
  assert (Forall (fun a => a < length (person_heap w1))%nat (owners w1)) as Hl1.
  { subst w1; simpl. rewrite length_alter. apply Hw. }
  unfold release. fold w1.
  unfold bind at 1. unfold read at 1. unfold person_at, count_of.
  destruct (lookup_lt_is_Some_2 _ _ Ho1) as [p Hp]. rewrite Hp. simpl.
  destruct (vehicle_count p =? 0).
  - unfold bind at 1. unfold owners_remove, bind at 1. unfold read at 1.
    rewrite (remove_valid person_equal (same_person (person_heap w1))
               (fun a => a < length (person_heap w1))%nat);
      [|apply person_equal_valid|apply same_person_refl|done|done].
    subst w1. simpl. by destruct (remove_first _ _).
  - done.
Qed.

Lemma find_vehicle_valid (plate : string) (w : World) :
  well_formed w ->
  _find_vehicle_by_plate plate w
  = Return (List.find (has_plate (vehicle_heap w) plate) (vehicles w)).
Proof. intros Hw. apply find_in_valid, Hw. Qed.

Lemma find_vehicle_Some (plate : string) (w : World) (vehicle : ref) :
  well_formed w ->
  List.find (has_plate (vehicle_heap w) plate) (vehicles w) = Some vehicle ->
  vehicle ∈ vehicles w /\
  exists v, vehicle_heap w !! vehicle = Some v /\ registration_plate v = plate.
Proof.
  intros Hw Hfind. apply find_some in Hfind as [Hin Hplate].
  split; [by apply list_elem_of_In|].
  unfold has_plate in Hplate.
  destruct (vehicle_heap w !! vehicle) as [v|]; [|done].
  exists v. split; [done|]. by apply String.eqb_eq.
Qed.

Lemma update_vehicle_owner_run (plate : string) (new_owner : ref) (w : World) :
  well_formed w -> (new_owner < length (person_heap w))%nat ->
  update_vehicle_owner plate new_owner w
  = match List.find (has_plate (vehicle_heap w) plate) (vehicles w) with
    | None => (Return 0, w)
    | Some vehicle =>
        match vehicle_heap w !! vehicle with
        | None => (Raise InvalidRef, w)
        | Some v =>
            if same_person (person_heap w) (owner v) new_owner
            then (Return 0, w)
            else match release (owner v) w with
                 | (Return _, w1) =>
                     (Return 1, reassigned vehicle v new_owner w1)
                 | (Raise e, w1) => (Raise e, w1)
                 end
        end
    end.
Proof.
  intros Hw Hn. unfold update_vehicle_owner.
  unfold bind at 1. unfold read at 1. rewrite find_vehicle_valid by done.
  destruct (List.find _ (vehicles w)) as [vehicle|] eqn:Hfind; [|done].
  destruct (find_vehicle_Some _ _ _ Hw Hfind) as (Hin & v & Hv & Hplate).
  unfold bind at 1. unfold read at 1. unfold vehicle_at. rewrite Hv. simpl.
  assert (owner v < length (person_heap w))%nat as Ho.
  { eapply (Forall_lookup_1 _ _ _ _ (wf_owner w Hw)); eauto. }
  unfold bind at 1. unfold read at 1. rewrite person_equal_valid by done.
  destruct (same_person (person_heap w) (owner v) new_owner); [done|].
  rewrite release_run by done.
  destruct (release (owner v) w) as [[[]|e] w1] eqn:Hrel; [|done].
  pose proof (release_well_formed _ _ _ _ Hw Hrel) as Hw1.
  destruct (release_frame _ _ _ _ Hrel) as (Hp1 & Hv1 & Hl1 & Ho1).
  unfold bind at 1. unfold write at 1.
  set (w2 := set_vehicle vehicle (set_owner v new_owner) w1).
  assert (well_formed w2) as Hw2.
  { subst w2. split; simpl.
    - rewrite length_insert. apply Hw1.
    - apply Hw1.
    - apply Forall_insert; [apply Hw1|]. simpl.
      by rewrite Hp1, length_alter. }
  assert (new_owner < length (person_heap w2))%nat as Hn2.
  { subst w2. simpl. by rewrite Hp1, length_alter. }
  unfold bind at 1. unfold read at 1. rewrite (contains_owner_valid w2) by done.
  unfold reassigned, add_owner. fold w2.
  destruct (known_owner w2 new_owner).
  - unfold bind at 1. unfold ret at 1. unfold bind.
    by rewrite person_call_valid.
  - unfold bind at 1. unfold owners_append, write at 1. unfold bind.
    by rewrite person_call_valid.
Qed.

Lemma remove_first_ext (f g : ref -> bool) (l : list ref) :
  Forall (fun x => f x = g x) l -> remove_first f l = remove_first g l.
Proof.
  induction 1 as [|a l Ha Hl IH]; simpl; [done|]. by rewrite Ha, IH.
Qed.

Lemma find_remove_first (f : ref -> bool) (l : list ref) (x : ref) :
  List.find f l = Some x -> is_Some (remove_first f l).
Proof.
  induction l as [|a l IH]; simpl; [done|].
  destruct (f a); [eauto|]. intros Hfind.
  destruct (IH Hfind) as [l' ->]. simpl. eauto.
Qed.

Lemma same_plate_has_plate (h : list Vehicle) (vehicle el : ref) (v : Vehicle) :
  h !! vehicle = Some v ->
  same_plate h el vehicle = has_plate h (registration_plate v) el.
Proof.
  intros Hv. unfold same_plate, has_plate. rewrite Hv.
  by destruct (h !! el).
Qed.

Lemma delete_vehicle_run (plate : string) (w : World) :
  well_formed w ->
  delete_vehicle plate w
  = match List.find (has_plate (vehicle_heap w) plate) (vehicles w) with
    | None => (Return 0, w)
    | Some vehicle =>
        match vehicle_heap w !! vehicle,
              remove_first (has_plate (vehicle_heap w) plate) (vehicles w) with
        | Some v, Some l =>
            match release (owner v) (set_vehicles l w) with
            | (Return _, w1) => (Return 1, w1)
            | (Raise e, w1) => (Raise e, w1)
            end
        | _, _ => (Raise InvalidRef, w)
        end
    end.
Proof.
  intros Hw. unfold delete_vehicle.
  unfold bind at 1. unfold read at 1. rewrite find_vehicle_valid by done.
  destruct (List.find _ (vehicles w)) as [vehicle|] eqn:Hfind; [|done].
  destruct (find_vehicle_Some _ _ _ Hw Hfind) as (Hin & v & Hv & Hplate).
  destruct (find_remove_first _ _ _ Hfind) as [l Hl]. rewrite Hv, Hl.
  unfold bind at 1. unfold read at 1. unfold vehicle_at. rewrite Hv. simpl.
  assert (owner v < length (person_heap w))%nat as Ho.
  { eapply (Forall_lookup_1 _ _ _ _ (wf_owner w Hw)); eauto. }
  assert (vehicle < length (vehicle_heap w))%nat as Hlt
    by (eapply lookup_lt_Some; eauto).
  unfold bind at 1. unfold vehicles_remove, bind at 1. unfold read at 1.
  rewrite (remove_valid vehicle_equal (same_plate (vehicle_heap w))
             (fun a => a < length (vehicle_heap w))%nat);
    [|apply vehicle_equal_valid|apply same_plate_refl|done|apply Hw].
  rewrite (remove_first_ext _ (has_plate (vehicle_heap w) plate)).
  2:{ apply Forall_forall. intros el _. subst plate.
      by apply same_plate_has_plate. }
  rewrite Hl. unfold write at 1.
  set (w0 := set_vehicles l w).
  assert (well_formed w0) as Hw0.
  { subst w0. split; simpl; try apply Hw.
    eapply Forall_sublist_of; [by eapply remove_first_sublist | apply Hw]. }
  rewrite (release_run (owner v) (ret 1) w0) by done.
  by destruct (release (owner v) w0) as [[[]|e] w1].
Qed.

(** ** Every reachable state is well formed *)

Lemma add_owner_frame (o : ref) (w : World) :
  person_heap (add_owner o w) = person_heap w /\
  vehicle_heap (add_owner o w) = vehicle_heap w /\
  vehicles (add_owner o w) = vehicles w.
Proof. unfold add_owner. by destruct (known_owner w o). Qed.

Lemma add_owner_well_formed (o : ref) (w : World) :
  well_formed w -> (o < length (person_heap w))%nat ->
  well_formed (add_owner o w).
Proof.
  intros Hw Ho. unfold add_owner. destruct (known_owner w o); [done|].
  split; simpl; try apply Hw.
  apply Forall_app. split; [apply Hw | by apply Forall_singleton].
Qed.

Lemma bump_well_formed (f : Person -> Person) (a : ref) (w : World) :
  well_formed w -> well_formed (bump f a w).
Proof. intros Hw. split; simpl; rewrite ?length_alter; apply Hw. Qed.

Lemma reassigned_well_formed (vehicle : ref) (v : Vehicle) (new_owner : ref) (w : World) :
  well_formed w -> (new_owner < length (person_heap w))%nat ->
  well_formed (reassigned vehicle v new_owner w).
Proof.
  intros Hw Hn. unfold reassigned.
  apply bump_well_formed, add_owner_well_formed; [|done].
  split; simpl; rewrite ?length_insert; try apply Hw.
  apply Forall_insert; [apply Hw | done].
Qed.

Lemma insert_vehicle_well_formed (vehicle : ref) (w : World) :
  well_formed w -> (vehicle < length (vehicle_heap w))%nat ->
  well_formed (snd (insert_vehicle vehicle w)).
Proof.
  intros Hw Hlt. destruct (lookup_lt_is_Some_2 _ _ Hlt) as [v Hv].
  rewrite (insert_vehicle_run w vehicle v) by done.
  destruct (existsb _ _); simpl; [done|].
  assert (owner v < length (person_heap w))%nat as Ho.
  { eapply (Forall_lookup_1 _ _ _ _ (wf_owner w Hw)); eauto. }
  apply bump_well_formed, add_owner_well_formed; [|done].
  split; simpl; try apply Hw.
  apply Forall_app. split; [apply Hw | by apply Forall_singleton].
Qed.

Lemma update_vehicle_owner_well_formed (plate : string) (new_owner : ref) (w : World) :
  well_formed w -> (new_owner < length (person_heap w))%nat ->
  well_formed (snd (update_vehicle_owner plate new_owner w)).
Proof.
  intros Hw Hn. rewrite update_vehicle_owner_run by done.
  destruct (List.find _ _) as [vehicle|]; [|done].
  destruct (vehicle_heap w !! vehicle) as [v|]; [|done].
  destruct (same_person _ _ _); [done|].
  destruct (release (owner v) w) as [r w1] eqn:Hrel.
  pose proof (release_well_formed _ _ _ _ Hw Hrel) as Hw1.
  destruct r as [[]|e]; simpl; [|done].
  apply reassigned_well_formed; [done|].
  destruct (release_frame _ _ _ _ Hrel) as (-> & _).
  by rewrite length_alter.
Qed.

Lemma delete_vehicle_well_formed (plate : string) (w : World) :
  well_formed w -> well_formed (snd (delete_vehicle plate w)).
Proof.
  intros Hw. rewrite delete_vehicle_run by done.
  destruct (List.find _ _) as [vehicle|]; [|done].
  destruct (vehicle_heap w !! vehicle) as [v|]; [|done].
  destruct (remove_first _ _) as [l|] eqn:Hrem; [|done].
  assert (well_formed (set_vehicles l w)) as Hw0.
  { split; simpl; try apply Hw.
    eapply Forall_sublist_of; [by eapply remove_first_sublist | apply Hw]. }
  destruct (release (owner v) (set_vehicles l w)) as [r w1] eqn:Hrel.
  pose proof (release_well_formed _ _ _ _ Hw0 Hrel) as Hw1.
  by destruct r as [[]|e].
Qed.

Lemma Forall_lt_le (l : list ref) (n m : nat) :
  (n <= m)%nat -> Forall (fun a => a < n)%nat l -> Forall (fun a => a < m)%nat l.
Proof. intros Hle Hl. eapply Forall_impl; [done|]. intros a Ha. simpl in *. lia. Qed.

Lemma exec_well_formed (c : call) (w : World) :
  well_formed w -> call_ok c w = true -> well_formed (exec c w).
Proof.
  intros Hw Hok. destruct c as [n s a|p d o|v|p o|p]; simpl in *.
  - split; simpl; try apply Hw.
    + eapply Forall_lt_le; [|apply Hw]. rewrite length_app. lia.
    + eapply Forall_impl; [apply Hw|]. simpl. intros v Hv.
      rewrite length_app. lia.
  - apply bool_decide_eq_true in Hok. split; simpl; try apply Hw.
    + eapply Forall_lt_le; [|apply Hw]. rewrite length_app. lia.
    + apply Forall_app. split; [apply Hw | by apply Forall_singleton].
  - apply bool_decide_eq_true in Hok. by apply insert_vehicle_well_formed.
  - apply bool_decide_eq_true in Hok. by apply update_vehicle_owner_well_formed.
  - by apply delete_vehicle_well_formed.
Qed.

Lemma init_well_formed : well_formed init.
Proof. split; simpl; constructor. Qed.

(** An invariant of every call holds in every reachable state. *)
Lemma run_invariant (P : World -> Prop) :
  (forall c w, P w -> call_ok c w = true -> P (exec c w)) ->
  forall cs w w', P w -> run cs w = Some w' -> P w'.
Proof.
  intros Hstep cs. induction cs as [|c cs IH]; intros w w' Hw Hrun; simpl in *.
  - by simplify_eq.
  - destruct (call_ok c w) eqn:Hok; [|done]. eapply IH; [|done]. by apply Hstep.
Qed.

Lemma reachable_well_formed (w : World) : reachable w -> well_formed w.
Proof.
  intros [cs Hrun].
  eapply (run_invariant well_formed); [|apply init_well_formed|done].
  intros c w0. apply exec_well_formed.
Qed.

(** ** Registration plates are unique *)

Lemma plates_frame (w w' : World) :
  vehicle_heap w' = vehicle_heap w -> vehicles w' = vehicles w ->
  plates w' = plates w.
Proof. unfold plates. by intros -> ->. Qed.

Lemma plate_of_set_owner (h : list Vehicle) (vehicle : ref) (v : Vehicle) (o : ref) (a : ref) :
  h !! vehicle = Some v ->
  plate_of (<[vehicle := set_owner v o]> h) a = plate_of h a.
Proof.
  intros Hv. unfold plate_of. destruct (decide (vehicle = a)) as [->|Hne].
  - rewrite list_lookup_insert_eq by (by eapply lookup_lt_Some).
    by rewrite Hv.
  - by rewrite list_lookup_insert_ne.
Qed.

Lemma plate_of_app (h : list Vehicle) (v : Vehicle) (a : ref) :
  (a < length h)%nat -> plate_of (h ++ [v]) a = plate_of h a.
Proof. intros Ha. unfold plate_of. by rewrite lookup_app_l. Qed.

Lemma duplicate_plate_iff (w : World) (vehicle : ref) (v : Vehicle) :
  well_formed w -> vehicle_heap w !! vehicle = Some v ->
  existsb (fun el => same_plate (vehicle_heap w) el vehicle) (vehicles w) = true
  <-> Some (registration_plate v) ∈ plates w.
Proof.
  intros Hw Hv. rewrite existsb_exists. unfold plates.
  rewrite list_elem_of_fmap. split.
  - intros (el & Hin & Hsame). exists el. split; [|by apply list_elem_of_In].
    unfold same_plate, plate_of in *. rewrite Hv in Hsame.
    destruct (vehicle_heap w !! el) as [u|]; [|done]. simpl.
    apply String.eqb_eq in Hsame. by rewrite Hsame.
  - intros (el & Hplate & Hin). exists el. split; [by apply list_elem_of_In|].
    unfold same_plate, plate_of in *. rewrite Hv.
    destruct (vehicle_heap w !! el) as [u|]; simplify_eq. simpl in *.
    simplify_eq. apply String.eqb_eq. congruence.
Qed.

Lemma insert_vehicle_plates (vehicle : ref) (w : World) :
  well_formed w -> (vehicle < length (vehicle_heap w))%nat ->
  NoDup (plates w) -> NoDup (plates (snd (insert_vehicle vehicle w))).
Proof.
  intros Hw Hlt Hnd. destruct (lookup_lt_is_Some_2 _ _ Hlt) as [v Hv].
  rewrite (insert_vehicle_run w vehicle v) by done.
  destruct (existsb _ _) eqn:Hdup; simpl; [done|].
  set (w1 := set_vehicles (vehicles w ++ [vehicle]) w).
  destruct (add_owner_frame (owner v) w1) as (_ & Hvh & Hvs).
  rewrite (plates_frame w1) by done.
  unfold plates. subst w1. simpl. rewrite fmap_app. simpl.
  apply NoDup_app. split; [done|]. split; [|apply NoDup_singleton].
  intros x Hx ->%list_elem_of_singleton.
  unfold plate_of in Hx at 1. rewrite Hv in Hx. simpl in Hx.
  apply (duplicate_plate_iff w vehicle v Hw Hv) in Hx. congruence.
Qed.

Lemma update_vehicle_owner_plates (plate : string) (new_owner : ref) (w : World) :
  well_formed w -> (new_owner < length (person_heap w))%nat ->
  plates (snd (update_vehicle_owner plate new_owner w)) = plates w.
Proof.
  intros Hw Hn. rewrite update_vehicle_owner_run by done.
  destruct (List.find _ _) as [vehicle|]; [|done].
  destruct (vehicle_heap w !! vehicle) as [v|] eqn:Hv; [|done].
  destruct (same_person _ _ _); [done|].
  destruct (release (owner v) w) as [r w1] eqn:Hrel.
  destruct (release_frame _ _ _ _ Hrel) as (_ & Hvh & Hvs & _).
  destruct r as [[]|e]; simpl; [|by apply plates_frame].
  unfold reassigned.
  set (w2 := set_vehicle vehicle (set_owner v new_owner) w1).
  destruct (add_owner_frame new_owner w2) as (_ & Hvh2 & Hvs2).
  rewrite (plates_frame w2 (bump _ _ _)) by done.
  unfold plates. subst w2. simpl. rewrite Hvs, Hvh.
  apply list_fmap_ext. intros i a _. by apply plate_of_set_owner.
Qed.

Lemma delete_vehicle_vehicles (plate : string) (w : World) :
  well_formed w ->
  vehicle_heap (snd (delete_vehicle plate w)) = vehicle_heap w /\
  vehicles (snd (delete_vehicle plate w)) `sublist_of` vehicles w.
Proof.
  intros Hw. rewrite delete_vehicle_run by done.
  destruct (List.find _ _) as [vehicle|]; [|done].
  destruct (vehicle_heap w !! vehicle) as [v|] eqn:Hv; [|done].
  destruct (remove_first _ _) as [l|] eqn:Hrem; [|done].
  destruct (release (owner v) (set_vehicles l w)) as [r w1] eqn:Hrel.
  destruct (release_frame _ _ _ _ Hrel) as (_ & Hvh & Hvs & _).
  assert (vehicle_heap w1 = vehicle_heap w /\ vehicles w1 `sublist_of` vehicles w)
    as Hgoal.
  { split; [done|]. rewrite Hvs. simpl. by eapply remove_first_sublist. }
  by destruct r as [[]|e].
Qed.

Lemma exec_plates (c : call) (w : World) :
  well_formed w -> NoDup (plates w) -> call_ok c w = true ->
  NoDup (plates (exec c w)).
Proof.
  intros Hw Hnd Hok. destruct c as [n s a|p d o|v|p o|p]; simpl in *.
  - done.
  - unfold plates. simpl.
    rewrite (Forall_fmap_ext_1 _ (plate_of (vehicle_heap w))); [done|].
    eapply Forall_impl; [apply Hw|]. intros a Ha. by apply plate_of_app.
  - apply bool_decide_eq_true in Hok. by apply insert_vehicle_plates.
  - apply bool_decide_eq_true in Hok. by rewrite update_vehicle_owner_plates.
  - destruct (delete_vehicle_vehicles p w Hw) as [Hvh Hvs].
    eapply sublist_NoDup; [exact Hnd|]. unfold plates. rewrite Hvh.
    by apply fmap_sublist.
Qed.

Lemma reachable_plates (w : World) :
  reachable w -> well_formed w /\ NoDup (plates w).
Proof.
  intros [cs Hrun].
  eapply (run_invariant (fun w => well_formed w /\ NoDup (plates w)));
    [| |done].
  - intros c w0 [Hw Hnd] Hok. split.
    + by apply exec_well_formed.
    + by apply exec_plates.
  - split; [apply init_well_formed | constructor].
Qed.

(** C8: in every reachable state the registered vehicles exist and no two
    of them share a registration plate; [insert_vehicle] rejects a vehicle
    whose plate is already registered, [update_vehicle_owner] keeps the
    vehicles list as it is and [delete_vehicle] only takes vehicles out. *)
Theorem unique_registration_plates (cs : list call) (w : World) :
  run cs init = Some w ->
  NoDup (plates w) /\ Forall is_Some (plates w) /\
  (forall vehicle,
     (vehicle < length (vehicle_heap w))%nat ->
     plate_of (vehicle_heap w) vehicle ∈ plates w ->
     insert_vehicle vehicle w = (Return 0, w)) /\
  (forall plate new_owner,
     (new_owner < length (person_heap w))%nat ->
     vehicles (snd (update_vehicle_owner plate new_owner w)) = vehicles w) /\
  (forall plate,
     vehicles (snd (delete_vehicle plate w)) `sublist_of` vehicles w).
Proof.
  intros Hrun. destruct (reachable_plates w) as [Hw Hnd]; [by exists cs|].
  split; [done|]. split; [|split; [|split]].
  - unfold plates. apply Forall_fmap. eapply Forall_impl; [apply Hw|].
    intros a Ha. simpl. unfold plate_of.
    destruct (lookup_lt_is_Some_2 _ _ Ha) as [v ->]. by eexists.
  - intros vehicle Hlt Hin. destruct (lookup_lt_is_Some_2 _ _ Hlt) as [v Hv].
    rewrite (insert_vehicle_run w vehicle v) by done.
    unfold plate_of in Hin at 1. rewrite Hv in Hin. simpl in Hin.
    apply (duplicate_plate_iff w vehicle v Hw Hv) in Hin. by rewrite Hin.
  - intros plate new_owner Hn. rewrite update_vehicle_owner_run by done.
    destruct (List.find _ _) as [vehicle|]; [|done].
    destruct (vehicle_heap w !! vehicle) as [v|] eqn:Hv; [|done].
    destruct (same_person _ _ _); [done|].
    destruct (release (owner v) w) as [r w1] eqn:Hrel.
    destruct (release_frame _ _ _ _ Hrel) as (_ & _ & Hvs & _).
    destruct r as [[]|e]; simpl; [|done].
    unfold reassigned. simpl.
    by destruct (add_owner_frame new_owner
                   (set_vehicle vehicle (set_owner v new_owner) w1))
      as (_ & _ & ->).
  - intros plate. by apply delete_vehicle_vehicles.
Qed.

Lemma unique_registration_plates_witness :
  exists w,
    run [NewPerson "John" "Doe" 20; NewVehicle "abc0" "20221122" 0%nat;
         NewVehicle "abc0" "20221122" 0%nat; InsertVehicle 0%nat;
         InsertVehicle 1%nat] init = Some w /\
    NoDup (plates w) /\ vehicles w = [0%nat].
Proof.
  eexists. split; [reflexivity|]. split; [|reflexivity].
  eapply (unique_registration_plates
            [NewPerson "John" "Doe" 20; NewVehicle "abc0" "20221122" 0%nat;
             NewVehicle "abc0" "20221122" 0%nat; InsertVehicle 0%nat;
             InsertVehicle 1%nat]).
  reflexivity.
Defined.

(** ** Counters after a method call on an object *)

Lemma count_of_frame (w w' : World) (a : ref) :
  person_heap w' = person_heap w -> count_of w' a = count_of w a.
Proof. unfold count_of. by intros ->. Qed.

Lemma count_of_bump_ne (f : Person -> Person) (o a : ref) (w : World) :
  o ≠ a -> count_of (bump f o w) a = count_of w a.
Proof. intros Hne. unfold count_of. simpl. by rewrite list_lookup_alter_ne. Qed.

Lemma count_of_increment (o : ref) (w : World) :
  (o < length (person_heap w))%nat ->
  count_of (bump increment_vehicle_count o w) o = count_of w o + 1.
Proof.
  intros Ho. unfold count_of. simpl. rewrite list_lookup_alter_eq.
  by destruct (lookup_lt_is_Some_2 _ _ Ho) as [p ->].
Qed.

Lemma count_of_decrement (o : ref) (w : World) :
  count_of (bump decrement_vehicle_count o w) o
  = if 0 <? count_of w o then count_of w o - 1 else count_of w o.
Proof.
  unfold count_of. simpl. rewrite list_lookup_alter_eq.
  destruct (person_heap w !! o) as [p|]; simpl; [|done].
  unfold decrement_vehicle_count. by destruct (0 <? vehicle_count p).
Qed.

Lemma known_owner_true (w : World) (o : ref) :
  known_owner w o = true <->
  exists el, el ∈ owners w /\ same_person (person_heap w) el o = true.
Proof.
  unfold known_owner. rewrite existsb_exists.
  by setoid_rewrite list_elem_of_In.
Qed.

(** ** Inserting a vehicle with a new plate *)

(** C6: when no registered vehicle has the plate of [vehicle],
    [insert_vehicle] returns 1; the vehicle is appended at the end of the
    vehicles list; its owner is appended at the end of the owners list
    exactly when no equal Person was in the list; the counter of the owner
    object is one more than before and no other object changes. *)
Theorem insert_vehicle_fresh (w : World) (vehicle : ref) (v : Vehicle) :
  well_formed w ->
  vehicle_heap w !! vehicle = Some v ->
  Some (registration_plate v) ∉ plates w ->
  exists w',
    insert_vehicle vehicle w = (Return 1, w') /\
    vehicles w' = vehicles w ++ [vehicle] /\
    vehicle_heap w' = vehicle_heap w /\
    ((exists el, el ∈ owners w /\ same_person (person_heap w) el (owner v) = true) ->
     owners w' = owners w) /\
    (~ (exists el, el ∈ owners w /\ same_person (person_heap w) el (owner v) = true) ->
     owners w' = owners w ++ [owner v]) /\
    count_of w' (owner v) = count_of w (owner v) + 1 /\
    (forall a, a ≠ owner v -> person_heap w' !! a = person_heap w !! a).
Proof.
  intros Hw Hv Hfresh.
  assert (owner v < length (person_heap w))%nat as Ho.
  { eapply (Forall_lookup_1 _ _ _ _ (wf_owner w Hw)); eauto. }
  rewrite (insert_vehicle_run w vehicle v) by done.
  destruct (existsb _ _) eqn:Hdup.
  { by apply (duplicate_plate_iff w vehicle v Hw Hv) in Hdup. }
  eexists. split; [done|].
  set (w1 := set_vehicles (vehicles w ++ [vehicle]) w).
  destruct (add_owner_frame (owner v) w1) as (Hph & Hvh & Hvs).
  simpl. rewrite Hvs, Hvh, Hph. repeat split; try done.
  - intros Hknown%known_owner_true. unfold add_owner.
    change (known_owner w1 (owner v)) with (known_owner w (owner v)).
    by rewrite Hknown.
  - intros Hnew. unfold add_owner.
    change (known_owner w1 (owner v)) with (known_owner w (owner v)).
    destruct (known_owner w (owner v)) eqn:Hknown; [|done].
    by apply known_owner_true in Hknown.
  - rewrite count_of_increment by (by rewrite Hph).
    f_equal. by apply count_of_frame.
  - intros a Hne. by rewrite list_lookup_alter_ne.
Qed.

Lemma insert_vehicle_fresh_witness :
  let w := mkWorld [mkPerson "John" "Doe" 20 1; mkPerson "Alice" "Doe" 22 0]
             [mkVehicle "abc0" "20221122" 0%nat; mkVehicle "xyz" "20221124" 1%nat]
             [0%nat] [0%nat] in
  exists w',
    insert_vehicle 1%nat w = (Return 1, w') /\
    vehicles w' = [0%nat; 1%nat] /\
    count_of w' 1%nat = 1.
Proof.
  intros w.
  destruct (insert_vehicle_fresh w 1%nat (mkVehicle "xyz" "20221124" 1%nat))
    as (w' & Hrun & Hvs & _ & _ & _ & Hcount & _).
  - split; simpl; repeat constructor.
  - reflexivity.
  - unfold plates. simpl. intros Hin.
    apply list_elem_of_singleton in Hin. discriminate.
  - exists w'. split; [exact Hrun|]. split; [exact Hvs | exact Hcount].
Defined.

(** ** Equal Persons held in distinct objects

    The owners list is searched by [Person.__eq__], but each counter lives
    in one object.  When two objects are equal Persons, the list holds one of
    them while the vehicles point to both, and the counters, the list and the
    vehicles stop agreeing. *)

Lemma two_johns_run : run two_johns init = Some two_johns_registered.
Proof. reflexivity. Qed.

Lemma second_john_left_run :
  run (two_johns ++ [DeleteVehicle "abc0"]) init = Some second_john_left.
Proof. reflexivity. Qed.

Lemma second_john_left_reachable : reachable second_john_left.
Proof.
  exists (two_johns ++ [DeleteVehicle "abc0"]). apply second_john_left_run.
Qed.

(** C1: after [two_johns] and [delete_vehicle("abc0")] the vehicle "abc1"
    is registered and owned by John Doe, and the owners list is empty: the
    state is reachable and the list omits a current owner. *)
Theorem owners_omit_current_owner :
  run (two_johns ++ [DeleteVehicle "abc0"]) init = Some second_john_left /\
  vehicles second_john_left = [1%nat] /\
  owners second_john_left = [] /\
  ~ owners_exact second_john_left.
Proof.
  split; [apply second_john_left_run|]. split; [reflexivity|]. split; [reflexivity|].
  intros [_ _ Homit].
  specialize (Homit 1%nat (mkVehicle "abc1" "20221123" 1%nat)).
  assert (known_owner second_john_left 1%nat = true) as Hknown.
  { apply Homit; [|reflexivity]. simpl. apply list_elem_of_singleton. done. }
  discriminate Hknown.
Qed.

(** C2: after [two_johns] the owners list holds the first John Doe with
    counter 1, while two registered vehicles have an owner equal to him. *)
Theorem counter_misses_equal_owner :
  run two_johns init = Some two_johns_registered /\
  owners two_johns_registered = [0%nat] /\
  count_of two_johns_registered 0%nat = 1 /\
  list_vehicle_by_owner 0%nat two_johns_registered = Return [0%nat; 1%nat] /\
  ~ counts_exact two_johns_registered.
Proof.
  split; [apply two_johns_run|]. split; [reflexivity|]. split; [reflexivity|].
  split; [reflexivity|].
  intros Hcount. specialize (Hcount 0%nat).
  assert (count_of two_johns_registered 0%nat = 2) as Htwo.
  { apply Hcount. simpl. apply list_elem_of_singleton. done. }
  discriminate Htwo.
Qed.

(** C3: in the reachable state [second_john_left] both
    [update_vehicle_owner("abc1", alice)] and [delete_vehicle("abc1")] raise
    [ValueError] from [self.owners.remove]: the owner of "abc1" has counter 0
    after the decrement and no equal Person is in the owners list. *)
Theorem owners_remove_raises :
  reachable second_john_left /\
  fst (update_vehicle_owner "abc1" 2%nat second_john_left) = Raise ValueError /\
  fst (delete_vehicle "abc1" second_john_left) = Raise ValueError.
Proof.
  split; [|split; reflexivity].
  apply second_john_left_reachable.
Qed.

(** C5: in the reachable state [second_john_left] the vehicle "abc1" is
    registered and its owner John Doe does not equal Alice Doe, yet
    [update_vehicle_owner("abc1", alice)] does not return 1: it raises
    [ValueError] after the decrement, with the vehicle still owned by John. *)
Theorem update_vehicle_owner_raises :
  reachable second_john_left /\
  _find_vehicle_by_plate "abc1" second_john_left = Return (Some 1%nat) /\
  owned_by second_john_left 2%nat 1%nat = false /\
  update_vehicle_owner "abc1" 2%nat second_john_left
  = (Raise ValueError,
     mkWorld
       [mkPerson "John" "Doe" 20 0; mkPerson "John" "Doe" 20 0;
        mkPerson "Alice" "Doe" 22 0]
       [mkVehicle "abc0" "20221122" 0%nat; mkVehicle "abc1" "20221123" 1%nat]
       [1%nat] []).
Proof.
  split; [|repeat split; reflexivity].
  apply second_john_left_reachable.
Qed.

(** C7: in the reachable state [second_john_left] a vehicle with plate
    "abc1" is registered, yet [delete_vehicle("abc1")] does not return 1: it
    raises [ValueError] after taking the vehicle out of the list. *)
Theorem delete_vehicle_raises :
  reachable second_john_left /\
  _find_vehicle_by_plate "abc1" second_john_left = Return (Some 1%nat) /\
  delete_vehicle "abc1" second_john_left
  = (Raise ValueError,
     mkWorld
       [mkPerson "John" "Doe" 20 0; mkPerson "John" "Doe" 20 0;
        mkPerson "Alice" "Doe" 22 0]
       [mkVehicle "abc0" "20221122" 0%nat; mkVehicle "abc1" "20221123" 1%nat]
       [] []).
Proof.
  split; [|split; reflexivity].
  apply second_john_left_reachable.
Qed.

(** C9: in the reachable state [second_john_left] the owners list is empty,
    so John Doe does not appear in [list_owners()], yet
    [list_vehicle_by_owner(p2)] returns the vehicle "abc1". *)
Theorem unlisted_owner_has_vehicles :
  reachable second_john_left /\
  list_owners second_john_left = Return [] /\
  known_owner second_john_left 1%nat = false /\
  list_vehicle_by_owner 1%nat second_john_left = Return [1%nat].
Proof.
  split; [|repeat split; reflexivity].
  apply second_john_left_reachable.
Qed.

(** ** With one object per Person the register is consistent *)

Lemma tally_nonneg (f : ref -> bool) (l : list ref) : 0 <= tally f l.
Proof. unfold tally. lia. Qed.

Lemma tally_app (f : ref -> bool) (l k : list ref) :
  tally f (l ++ k) = tally f l + tally f k.
Proof. unfold tally. rewrite List.filter_app, length_app. lia. Qed.

Lemma tally_cons (f : ref -> bool) (x : ref) (l : list ref) :
  tally f (x :: l) = (if f x then 1 else 0) + tally f l.
Proof. unfold tally. simpl. destruct (f x); simpl; lia. Qed.

Lemma tally_ext (f g : ref -> bool) (l : list ref) :
  Forall (fun x => f x = g x) l -> tally f l = tally g l.
Proof.
  induction 1 as [|x l Hx Hl IH]; [done|]. by rewrite !tally_cons, Hx, IH.
Qed.

Lemma tally_positive (f : ref -> bool) (x : ref) (l : list ref) :
  x ∈ l -> f x = true -> 0 < tally f l.
Proof.
  intros (l1 & l2 & ->)%list_elem_of_split Hx.
  rewrite tally_app, tally_cons, Hx.
  pose proof (tally_nonneg f l1). pose proof (tally_nonneg f l2). lia.
Qed.

Lemma tally_zero (f : ref -> bool) (l : list ref) :
  tally f l = 0 -> Forall (fun x => f x = false) l.
Proof.
  induction l as [|x l IH]; [constructor|]. rewrite tally_cons.
  pose proof (tally_nonneg f l). destruct (f x) eqn:Hx; [lia|].
  intros Hl. constructor; [done|]. apply IH. lia.
Qed.

Lemma distinct_persons_alter (f : Person -> Person) (a : ref) (h : list Person) :
  keeps_identity f -> distinct_persons h -> distinct_persons (alter f a h).
Proof.
  intros Hf Hh x y Hx Hy. rewrite length_alter in Hx, Hy.
  rewrite same_person_alter by done. by apply Hh.
Qed.

Lemma same_person_distinct (h : list Person) (a b : ref) :
  distinct_persons h -> (a < length h)%nat -> (b < length h)%nat ->
  same_person h a b = Nat.eqb a b.
Proof.
  intros Hh Ha Hb. destruct (Nat.eqb_spec a b) as [->|Hne].
  - by apply same_person_refl.
  - destruct (same_person h a b) eqn:Hsame; [|done].
    by apply Hh in Hsame.
Qed.

Lemma known_owner_distinct (w : World) (o : ref) :
  well_formed w -> distinct_persons (person_heap w) ->
  (o < length (person_heap w))%nat ->
  known_owner w o = true <-> o ∈ owners w.
Proof.
  intros Hw Hd Ho. rewrite known_owner_true. split.
  - intros (el & Hin & Hsame).
    assert (el < length (person_heap w))%nat as Hel.
    { by eapply (proj1 (Forall_forall _ _) (wf_owners w Hw)). }
    apply Hd in Hsame; [by subst | done | done].
  - intros Hin. exists o. split; [done | by apply same_person_refl].
Qed.

Lemma acquire_count (o a : ref) (w : World) :
  (o < length (person_heap w))%nat ->
  count_of (acquire o w) a = count_of w a + (if Nat.eqb a o then 1 else 0).
Proof.
  intros Ho. unfold acquire.
  destruct (add_owner_frame o w) as (Hph & _ & _).
  destruct (Nat.eqb_spec a o) as [->|Hne].
  - rewrite count_of_increment by (by rewrite Hph).
    f_equal. by apply count_of_frame.
  - rewrite count_of_bump_ne by done. rewrite (count_of_frame w) by done. lia.
Qed.

Lemma acquire_ledger (o : ref) (w : World) :
  well_formed w -> distinct_persons (person_heap w) ->
  (o < length (person_heap w))%nat ->
  ledger w -> 0 <= count_of w o ->
  ledger (acquire o w).
Proof.
  intros Hw Hd Ho [Hnd Hmem] Hcount.
  pose proof (known_owner_distinct w o Hw Hd Ho) as Hknown.
  assert (owners (acquire o w)
          = if known_owner w o then owners w else owners w ++ [o]) as Howners.
  { unfold acquire, add_owner. by destruct (known_owner w o). }
  split.
  - rewrite Howners. destruct (known_owner w o); [done|].
    apply NoDup_app. split; [done|]. split; [|apply NoDup_singleton].
    intros x Hx ->%list_elem_of_singleton.
    apply Hknown in Hx. done.
  - intros a. rewrite acquire_count by done. rewrite Howners.
    destruct (Nat.eqb_spec a o) as [->|Hne].
    + split; [lia|]. intros _.
      destruct (known_owner w o); [by apply Hknown|].
      apply elem_of_app. right. by apply list_elem_of_singleton.
    + rewrite Z.add_0_r, <- Hmem.
      destruct (known_owner w o); [done|].
      rewrite elem_of_app, list_elem_of_singleton. tauto.
Qed.

Lemma release_count (o a : ref) (w w1 : World) (r : outcome unit) :
  release o w = (r, w1) -> 0 < count_of w o ->
  count_of w1 a = count_of w a - (if Nat.eqb a o then 1 else 0).
Proof.
  intros (Hph & _)%release_frame Hpos.
  rewrite (count_of_frame (bump decrement_vehicle_count o w) w1) by done.
  destruct (Nat.eqb_spec a o) as [->|Hne].
  - rewrite count_of_decrement.
    destruct (Z.ltb_spec 0 (count_of w o)); lia.
  - rewrite count_of_bump_ne by done. lia.
Qed.

Lemma release_ledger (o : ref) (w : World) :
  well_formed w -> distinct_persons (person_heap w) ->
  (o < length (person_heap w))%nat ->
  ledger w -> 0 < count_of w o ->
  exists w1, release o w = (Return tt, w1) /\ ledger w1.
Proof.
  intros Hw Hd Ho [Hnd Hmem] Hpos.
  destruct (release o w) as [r w1] eqn:Hrel.
  pose proof (fun a => release_count o a w w1 r Hrel Hpos) as Hcount.
  revert Hrel. unfold release.
  set (w0 := bump decrement_vehicle_count o w).
  assert (count_of w0 o = count_of w o - 1) as Hdec.
  { subst w0. rewrite count_of_decrement.
    destruct (Z.ltb_spec 0 (count_of w o)); lia. }
  rewrite Hdec. destruct (Z.eqb_spec (count_of w o - 1) 0) as [Hzero|Hmore].
  - destruct (remove_first _ (owners w0)) as [l|] eqn:Hrem.
    + intros Hrel. simplify_eq. eexists. split; [done|].
      apply remove_first_split in Hrem
        as (l1 & x & l2 & Hl & -> & Hx & _). simpl in Hl.
      assert (x = o) as ->.
      { assert (x < length (person_heap w))%nat as Hxlt.
        { eapply (proj1 (Forall_forall _ _) (wf_owners w Hw)).
          rewrite Hl. apply elem_of_app. right. by left. }
        subst w0. simpl in Hx.
        rewrite same_person_alter in Hx by apply decrement_keeps_identity.
        by apply Hd in Hx. }
      rewrite Hl in Hnd.
      apply NoDup_app in Hnd as (Hnd1 & Hnd12 & Hnd2).
      apply NoDup_cons in Hnd2 as (Ho2 & Hnd2).
      split; simpl.
      * apply NoDup_app. repeat split; try done.
        intros y Hy1 Hy2. apply (Hnd12 y Hy1). by right.
      * intros a. rewrite Hcount. destruct (Nat.eqb_spec a o) as [->|Hne].
        -- split; [|lia]. rewrite elem_of_app. intros [Hin|Hin]; [|done].
           exfalso. apply (Hnd12 o Hin). by left.
        -- rewrite Z.sub_0_r, <- Hmem, Hl, !elem_of_app, elem_of_cons. tauto.
    + exfalso. apply remove_first_None in Hrem.
      assert (o ∈ owners w) as Hin by (by apply Hmem).
      apply (proj1 (Forall_forall _ _) Hrem) in Hin.
      subst w0. simpl in Hin.
      rewrite same_person_alter in Hin by apply decrement_keeps_identity.
      by rewrite same_person_refl in Hin.
  - intros Hrel. simplify_eq. eexists. split; [done|]. split; simpl; [done|].
    intros a. rewrite Hcount. destruct (Nat.eqb_spec a o) as [->|Hne].
    + split; [lia|]. intros _. apply Hmem. lia.
    + by rewrite Z.sub_0_r.
Qed.

Lemma ledger_frame (w w' : World) :
  person_heap w' = person_heap w -> owners w' = owners w ->
  ledger w -> ledger w'.
Proof.
  intros Hph Ho [Hnd Hmem]. split; rewrite Ho; [done|].
  intros a. by rewrite (count_of_frame w w').
Qed.

Lemma find_remove_first_split (f : ref -> bool) (l l' : list ref) (x : ref) :
  List.find f l = Some x -> remove_first f l = Some l' ->
  exists l1 l2, l = l1 ++ x :: l2 /\ l' = l1 ++ l2.
Proof.
  revert l'. induction l as [|a l IH]; intros l' Hfind Hrem; simpl in *; [done|].
  destruct (f a).
  - simplify_eq. by exists [], l'.
  - destruct (remove_first f l) as [r|]; simplify_eq. simpl in *. simplify_eq.
    destruct (IH r Hfind eq_refl) as (l1 & l2 & -> & ->).
    by exists (a :: l1), l2.
Qed.

Lemma owner_is_lookup (h : list Vehicle) (a vehicle : ref) (v : Vehicle) :
  h !! vehicle = Some v -> owner_is h a vehicle = Nat.eqb (owner v) a.
Proof. intros Hv. unfold owner_is. by rewrite Hv. Qed.

Lemma tally_reassign (h : list Vehicle) (l : list ref) (vehicle : ref)
    (v : Vehicle) (n a : ref) :
  NoDup l -> vehicle ∈ l -> h !! vehicle = Some v ->
  tally (owner_is (<[vehicle := set_owner v n]> h) a) l
  = tally (owner_is h a) l
    - (if Nat.eqb (owner v) a then 1 else 0) + (if Nat.eqb n a then 1 else 0).
Proof.
  intros Hnd (l1 & l2 & ->)%list_elem_of_split Hv.
  apply NoDup_app in Hnd as (_ & Hnd12 & Hnd2).
  apply NoDup_cons in Hnd2 as (Hv2 & _).
  assert (forall k, vehicle ∉ k ->
            tally (owner_is (<[vehicle := set_owner v n]> h) a) k
            = tally (owner_is h a) k) as Hsame.
  { intros k Hk. apply tally_ext, Forall_forall. intros x Hx.
    unfold owner_is. rewrite list_lookup_insert_ne; [done|].
    intros ->. done. }
  rewrite !tally_app, !tally_cons, !Hsame; try done.
  - rewrite (owner_is_lookup h a vehicle v) by done.
    rewrite (owner_is_lookup (<[vehicle := set_owner v n]> h) a vehicle
               (set_owner v n))
      by (apply list_lookup_insert_eq; by eapply lookup_lt_Some).
    simpl. lia.
  - intros Hin. apply (Hnd12 vehicle Hin). by left.
Qed.

Lemma vehicles_NoDup (w : World) : NoDup (plates w) -> NoDup (vehicles w).
Proof. unfold plates. apply NoDup_fmap_1. Qed.

(** The owner of a registered vehicle has a positive counter. *)
Lemma registered_owner_counted (w : World) (vehicle : ref) (v : Vehicle) :
  counted w -> vehicle ∈ vehicles w -> vehicle_heap w !! vehicle = Some v ->
  0 < count_of w (owner v).
Proof.
  intros Hc Hin Hv. rewrite Hc. eapply tally_positive; [done|].
  rewrite (owner_is_lookup _ _ _ v) by done. apply Nat.eqb_refl.
Qed.

Lemma registered_owner_valid (w : World) (vehicle : ref) (v : Vehicle) :
  well_formed w -> vehicle_heap w !! vehicle = Some v ->
  (owner v < length (person_heap w))%nat.
Proof.
  intros Hw Hv. eapply (Forall_lookup_1 _ _ _ _ (wf_owner w Hw)); eauto.
Qed.

Lemma insert_vehicle_consistent (vehicle : ref) (w : World) :
  consistent w -> distinct_persons (person_heap w) ->
  (vehicle < length (vehicle_heap w))%nat ->
  consistent (snd (insert_vehicle vehicle w)).
Proof.
  intros [Hw Hnd Hl Hc] Hd Hlt.
  split; [by apply insert_vehicle_well_formed | by apply insert_vehicle_plates | |];
    destruct (lookup_lt_is_Some_2 _ _ Hlt) as [v Hv];
    rewrite (insert_vehicle_run w vehicle v) by done;
    (destruct (existsb _ _); simpl; [done|]);
    pose proof (registered_owner_valid w vehicle v Hw Hv) as Ho;
    set (w1 := set_vehicles (vehicles w ++ [vehicle]) w);
    change (bump increment_vehicle_count (owner v) (add_owner (owner v) w1))
      with (acquire (owner v) w1).
  - apply acquire_ledger; try done.
    + split; simpl; try apply Hw.
      apply Forall_app. split; [apply Hw | by apply Forall_singleton].
    + by apply (ledger_frame w).
    + change (count_of w1 (owner v)) with (count_of w (owner v)).
      rewrite Hc. apply tally_nonneg.
  - intros a. rewrite acquire_count by done.
    change (count_of w1 a) with (count_of w a).
    destruct (add_owner_frame (owner v) w1) as (_ & Hvh & Hvs).
    unfold acquire. simpl. rewrite Hvh, Hvs. simpl.
    rewrite tally_app, tally_cons, (owner_is_lookup _ _ _ v) by done.
    rewrite Hc, (Nat.eqb_sym a). unfold tally at 3. simpl. lia.
Qed.

Lemma update_vehicle_owner_consistent (plate : string) (new_owner : ref) (w : World) :
  consistent w -> distinct_persons (person_heap w) ->
  (new_owner < length (person_heap w))%nat ->
  consistent (snd (update_vehicle_owner plate new_owner w)) /\
  (fst (update_vehicle_owner plate new_owner w) = Return 0 \/
   fst (update_vehicle_owner plate new_owner w) = Return 1).
Proof.
  intros Hcons Hd Hn. pose proof Hcons as [Hw Hnd Hl Hc].
  rewrite update_vehicle_owner_run by done.
  destruct (List.find _ _) as [vehicle|] eqn:Hfind; [|by auto].
  destruct (find_vehicle_Some _ _ _ Hw Hfind) as (Hin & v & Hv & Hplate).
  rewrite Hv.
  pose proof (registered_owner_valid w vehicle v Hw Hv) as Ho.
  destruct (same_person _ _ _) eqn:Hsame; [by auto|].
  assert (owner v ≠ new_owner) as Hne.
  { intros Heq. rewrite Heq, same_person_refl in Hsame; done. }
  destruct (release_ledger (owner v) w) as (w1 & Hrel & Hl1); try done.
  { by eapply registered_owner_counted. }
  rewrite Hrel. simpl. split; [|by auto].
  pose proof (release_well_formed _ _ _ _ Hw Hrel) as Hw1.
  destruct (release_frame _ _ _ _ Hrel) as (Hph & Hvh & Hvs & _).
  pose proof (fun a => release_count _ a _ _ _ Hrel
                         (registered_owner_counted w vehicle v Hc Hin Hv))
    as Hcount.
  unfold reassigned.
  set (w2 := set_vehicle vehicle (set_owner v new_owner) w1).
  change (bump increment_vehicle_count new_owner (add_owner new_owner w2))
    with (acquire new_owner w2).
  assert (well_formed w2) as Hw2.
  { subst w2. split; simpl; rewrite ?length_insert; try apply Hw1.
    apply Forall_insert; [apply Hw1|]. simpl. by rewrite Hph, length_alter. }
  assert (new_owner < length (person_heap w2))%nat as Hn2.
  { subst w2. simpl. by rewrite Hph, length_alter. }
  split.
  - unfold acquire. by apply bump_well_formed, add_owner_well_formed.
  - pose proof (update_vehicle_owner_plates plate new_owner w Hw Hn) as Hp.
    rewrite update_vehicle_owner_run, Hfind, Hv, Hsame, Hrel in Hp by done.
    simpl in Hp. unfold reassigned in Hp. fold w2 in Hp.
    unfold acquire. by rewrite Hp.
  - apply acquire_ledger; try done.
    + subst w2. simpl. rewrite Hph.
      by apply distinct_persons_alter; [apply decrement_keeps_identity|].
    + by apply (ledger_frame w1).
    + change (count_of w2 new_owner) with (count_of w1 new_owner).
      rewrite Hcount, Hc. pose proof (tally_nonneg
        (owner_is (vehicle_heap w) new_owner) (vehicles w)).
      destruct (Nat.eqb_spec new_owner (owner v)); [congruence | lia].
  - intros a. rewrite acquire_count by done.
    change (count_of w2 a) with (count_of w1 a). rewrite Hcount.
    destruct (add_owner_frame new_owner w2) as (_ & Hvh2 & Hvs2).
    unfold acquire. simpl. rewrite Hvh2, Hvs2. subst w2. simpl.
    rewrite Hvh, Hvs, (tally_reassign _ _ _ v); try done.
    + rewrite Hc, (Nat.eqb_sym a (owner v)), (Nat.eqb_sym a new_owner). lia.
    + by apply vehicles_NoDup.
Qed.

Lemma delete_vehicle_consistent (plate : string) (w : World) :
  consistent w -> distinct_persons (person_heap w) ->
  consistent (snd (delete_vehicle plate w)) /\
  (fst (delete_vehicle plate w) = Return 0 \/
   fst (delete_vehicle plate w) = Return 1).
Proof.
  intros Hcons Hd. pose proof Hcons as [Hw Hnd Hl Hc].
  pose proof (delete_vehicle_well_formed plate w Hw) as Hwf.
  pose proof (delete_vehicle_vehicles plate w Hw) as [Hvh' Hvs'].
  revert Hwf Hvh' Hvs'. rewrite delete_vehicle_run by done.
  destruct (List.find _ _) as [vehicle|] eqn:Hfind; [|by auto].
  destruct (find_vehicle_Some _ _ _ Hw Hfind) as (Hin & v & Hv & Hplate).
  destruct (find_remove_first _ _ _ Hfind) as [l Hrem]. rewrite Hv, Hrem.
  destruct (find_remove_first_split _ _ _ _ Hfind Hrem) as (l1 & l2 & Hvs & ->).
  pose proof (registered_owner_valid w vehicle v Hw Hv) as Ho.
  set (w0 := set_vehicles (l1 ++ l2) w).
  assert (well_formed w0) as Hw0.
  { split; simpl; try apply Hw.
    eapply Forall_sublist_of; [by eapply remove_first_sublist | apply Hw]. }
  assert (0 < count_of w0 (owner v)) as Hpos.
  { change (count_of w0 (owner v)) with (count_of w (owner v)).
    by eapply registered_owner_counted. }
  destruct (release_ledger (owner v) w0) as (w1 & Hrel & Hl1); try done.
  { by apply (ledger_frame w). }
  rewrite Hrel. simpl. intros Hwf Hvh' Hvs'. split; [|by auto].
  destruct (release_frame _ _ _ _ Hrel) as (Hph & Hvh & Hvs1 & _).
  split; try done.
  - eapply sublist_NoDup; [exact Hnd|]. unfold plates. rewrite Hvh'.
    by apply fmap_sublist.
  - intros a. rewrite (release_count _ a _ _ _ Hrel Hpos).
    change (count_of w0 a) with (count_of w a).
    rewrite Hc, Hvh, Hvs1, Hvs. simpl.
    rewrite !tally_app, tally_cons, (owner_is_lookup _ _ _ v) by done.
    rewrite (Nat.eqb_sym a). lia.
Qed.

Lemma same_identities_refl (h : list Person) : same_identities h h.
Proof. by split. Qed.

Lemma same_identities_alter (f : Person -> Person) (a : ref) (h h' : list Person) :
  keeps_identity f -> same_identities h h' -> same_identities h (alter f a h').
Proof.
  intros Hf [Hlen Hsame]. split; [by rewrite length_alter|].
  intros x y Hx Hy. rewrite same_person_alter by done. by apply Hsame.
Qed.

Lemma same_identities_app (h : list Person) (p : Person) :
  same_identities h (h ++ [p]).
Proof.
  split; [rewrite length_app; lia|].
  intros a b Ha Hb. unfold same_person. by rewrite !lookup_app_l.
Qed.

Lemma same_identities_distinct (h h' : list Person) :
  same_identities h h' -> distinct_persons h' -> distinct_persons h.
Proof.
  intros [Hlen Hsame] Hd a b Ha Hb Hab.
  apply Hd; [lia | lia |]. by rewrite Hsame.
Qed.

Lemma release_identities (o : ref) (w w1 : World) (r : outcome unit) :
  release o w = (r, w1) -> same_identities (person_heap w) (person_heap w1).
Proof.
  intros (-> & _)%release_frame.
  apply same_identities_alter;
    [apply decrement_keeps_identity | apply same_identities_refl].
Qed.

Lemma acquire_identities (o : ref) (h : list Person) (w : World) :
  same_identities h (person_heap w) ->
  same_identities h (person_heap (acquire o w)).
Proof.
  intros Hh. unfold acquire. simpl.
  destruct (add_owner_frame o w) as (-> & _).
  by apply same_identities_alter; [apply increment_keeps_identity|].
Qed.

Lemma exec_identities (c : call) (w : World) :
  well_formed w -> call_ok c w = true ->
  same_identities (person_heap w) (person_heap (exec c w)).
Proof.
  intros Hw Hok. destruct c as [n s a|p d o|v|p o|p]; simpl in *.
  - apply same_identities_app.
  - apply same_identities_refl.
  - apply bool_decide_eq_true in Hok.
    destruct (lookup_lt_is_Some_2 _ _ Hok) as [u Hu].
    rewrite (insert_vehicle_run w v u) by done.
    destruct (existsb _ _); simpl; [apply same_identities_refl|].
    apply (acquire_identities (owner u) (person_heap w)
             (set_vehicles (vehicles w ++ [v]) w)), same_identities_refl.
  - apply bool_decide_eq_true in Hok.
    rewrite update_vehicle_owner_run by done.
    destruct (List.find _ _) as [vehicle|]; [|apply same_identities_refl].
    destruct (vehicle_heap w !! vehicle) as [v|]; [|apply same_identities_refl].
    destruct (same_person _ _ _); [apply same_identities_refl|].
    destruct (release (owner v) w) as [r w1] eqn:Hrel.
    pose proof (release_identities _ _ _ _ Hrel) as Hid.
    destruct r as [[]|e]; simpl; [|done].
    by apply (acquire_identities o (person_heap w)
                (set_vehicle vehicle (set_owner v o) w1)).
  - rewrite delete_vehicle_run by done.
    destruct (List.find _ _) as [vehicle|]; [|apply same_identities_refl].
    destruct (vehicle_heap w !! vehicle) as [v|]; [|apply same_identities_refl].
    destruct (remove_first _ _) as [l|]; [|apply same_identities_refl].
    destruct (release (owner v) (set_vehicles l w)) as [r w1] eqn:Hrel.
    pose proof (release_identities _ _ _ _ Hrel) as Hid.
    by destruct r as [[]|e].
Qed.

Lemma new_person_consistent (n s : string) (a : Z) (w : World) :
  consistent w -> consistent (new_person (Person_init n s a) w).
Proof.
  intros [Hw Hnd Hl Hc].
  assert (forall x, count_of (new_person (Person_init n s a) w) x = count_of w x)
    as Hcount.
  { intros x. unfold count_of. simpl.
    destruct (decide (x < length (person_heap w))%nat) as [Hx|Hx].
    - by rewrite lookup_app_l.
    - rewrite lookup_app_r by lia. rewrite (lookup_ge_None_2 (person_heap w)) by lia.
      destruct (x - length (person_heap w))%nat as [|k]; [done|].
      by destruct k. }
  split.
  - by apply (exec_well_formed (NewPerson n s a)).
  - done.
  - destruct Hl as [Hno Hmem]. split; [done|].
    intros x. rewrite Hcount. apply Hmem.
  - intros x. rewrite Hcount. apply Hc.
Qed.

Lemma new_vehicle_consistent (p d : string) (o : ref) (w : World) :
  consistent w -> (o < length (person_heap w))%nat ->
  consistent (new_vehicle (mkVehicle p d o) w).
Proof.
  intros [Hw Hnd Hl Hc] Ho. split.
  - apply (exec_well_formed (NewVehicle p d o)); [done|].
    by apply bool_decide_eq_true.
  - apply (exec_plates (NewVehicle p d o)); [done | done|].
    by apply bool_decide_eq_true.
  - by apply (ledger_frame w).
  - intros x. change (count_of (new_vehicle (mkVehicle p d o) w) x)
      with (count_of w x). rewrite Hc. simpl.
    apply tally_ext. eapply Forall_impl; [apply Hw|].
    intros y Hy. simpl in Hy. unfold owner_is. by rewrite lookup_app_l.
Qed.

Lemma exec_consistent (c : call) (w : World) :
  consistent w -> distinct_persons (person_heap w) -> call_ok c w = true ->
  consistent (exec c w).
Proof.
  intros Hcons Hd Hok. destruct c as [n s a|p d o|v|p o|p]; simpl in *.
  - by apply new_person_consistent.
  - apply bool_decide_eq_true in Hok. by apply new_vehicle_consistent.
  - apply bool_decide_eq_true in Hok. by apply insert_vehicle_consistent.
  - apply bool_decide_eq_true in Hok.
    by apply update_vehicle_owner_consistent.
  - by apply delete_vehicle_consistent.
Qed.

Lemma init_consistent : consistent init.
Proof.
  split.
  - apply init_well_formed.
  - constructor.
  - split; [constructor|]. intros a. unfold count_of. simpl.
    rewrite elem_of_nil. lia.
  - by intros a.
Qed.

(** With one object per Person, every reachable state is consistent. *)
Lemma reachable_consistent (cs : list call) (w : World) :
  run cs init = Some w -> distinct_persons (person_heap w) -> consistent w.
Proof.
  intros Hrun.
  apply (run_invariant
           (fun w => well_formed w /\
                     (distinct_persons (person_heap w) -> consistent w))
           ) with (cs := cs) (w := init) (w' := w); [| |done].
  - intros c w0 [Hw Hcons] Hok. split; [by apply exec_well_formed|].
    intros Hd. pose proof (exec_identities c w0 Hw Hok) as Hid.
    pose proof (same_identities_distinct _ _ Hid Hd) as Hd0.
    apply exec_consistent; auto.
  - split; [apply init_well_formed|]. intros _. apply init_consistent.
Qed.

Lemma tally_positive_inv (f : ref -> bool) (l : list ref) :
  0 < tally f l -> exists x, x ∈ l /\ f x = true.
Proof.
  induction l as [|x l IH]; [unfold tally; simpl; lia|].
  rewrite tally_cons. destruct (f x) eqn:Hx.
  - intros _. exists x. split; [by left | done].
  - intros Hl. destruct IH as (y & Hy & Hfy); [lia|].
    exists y. split; [by right | done].
Qed.

Lemma owned_by_distinct (w : World) (a vehicle : ref) :
  well_formed w -> distinct_persons (person_heap w) ->
  (a < length (person_heap w))%nat ->
  owned_by w a vehicle = owner_is (vehicle_heap w) a vehicle.
Proof.
  intros Hw Hd Ha. unfold owned_by, owner_is.
  destruct (vehicle_heap w !! vehicle) as [v|] eqn:Hv; [|done].
  apply same_person_distinct; [done| |done].
  by eapply registered_owner_valid.
Qed.

Lemma consistent_counts_exact (w : World) :
  consistent w -> distinct_persons (person_heap w) -> counts_exact w.
Proof.
  intros [Hw Hnd Hl Hc] Hd a Ha. rewrite Hc. unfold tally. do 2 f_equal.
  assert (a < length (person_heap w))%nat as Hlt
    by (by eapply (proj1 (Forall_forall _ _) (wf_owners w Hw))).
  apply List.filter_ext. intros vehicle. symmetry. by apply owned_by_distinct.
Qed.

Lemma consistent_owners_exact (w : World) :
  consistent w -> distinct_persons (person_heap w) -> owners_exact w.
Proof.
  intros [Hw Hnd [Hno Hmem] Hc] Hd.
  pose proof (proj1 (Forall_forall _ _) (wf_owners w Hw)) as Hvalid.
  split.
  - intros i j a b Hi Hj Hsame.
    assert (a = b) as ->.
    { apply Hd; [| |done]; apply Hvalid; by eapply list_elem_of_lookup_2. }
    by eapply NoDup_lookup.
  - intros a Ha. pose proof (proj1 (Hmem a) Ha) as Hpos. rewrite Hc in Hpos.
    destruct (tally_positive_inv _ _ Hpos) as (vehicle & Hin & Hown).
    exists vehicle. split; [done|]. rewrite owned_by_distinct; auto.
  - intros vehicle v Hin Hv.
    apply known_owner_distinct; [done | done | by eapply registered_owner_valid|].
    apply Hmem. by eapply registered_owner_counted.
Qed.

Lemma by_owner_valid (o : ref) (l : list ref) (w : World) :
  well_formed w -> (o < length (person_heap w))%nat ->
  Forall (fun a => a < length (vehicle_heap w))%nat l ->
  by_owner o l w = Return (List.filter (owned_by w o) l).
Proof.
  intros Hw Ho Hl. induction Hl as [|vehicle l Hlt Hl IH]; simpl; [done|].
  unfold vehicle_at, owned_by at 1.
  destruct (lookup_lt_is_Some_2 _ _ Hlt) as [v Hv]. rewrite Hv. simpl.
  rewrite person_equal_valid; [|by eapply registered_owner_valid | done].
  simpl. rewrite IH. simpl.
  by destruct (same_person _ _ _).
Qed.

Lemma list_vehicle_by_owner_valid (o : ref) (w : World) :
  well_formed w -> (o < length (person_heap w))%nat ->
  list_vehicle_by_owner o w = Return (List.filter (owned_by w o) (vehicles w)).
Proof. intros Hw Ho. apply by_owner_valid; [done | done | apply Hw]. Qed.

(** With one object per Person, a Person outside the owners list has no
    registered vehicle. *)
Lemma unlisted_owner_has_none (o : ref) (w : World) :
  consistent w -> distinct_persons (person_heap w) ->
  (o < length (person_heap w))%nat ->
  known_owner w o = false ->
  list_vehicle_by_owner o w = Return [].
Proof.
  intros [Hw Hnd [Hno Hmem] Hc] Hd Ho Hknown.
  rewrite list_vehicle_by_owner_valid by done. f_equal.
  assert (o ∉ owners w) as Hout.
  { intros Hin%known_owner_distinct; [congruence | done..]. }
  assert (tally (owner_is (vehicle_heap w) o) (vehicles w) = 0) as Hzero.
  { rewrite <- Hc. rewrite Hmem in Hout. rewrite Hc in *.
    pose proof (tally_nonneg (owner_is (vehicle_heap w) o) (vehicles w)). lia. }
  apply tally_zero in Hzero.
  induction Hzero as [|vehicle l Hf Hl IH]; simpl; [done|].
  rewrite owned_by_distinct, Hf by done. done.
Qed.

(** ** No reference is ever followed to a missing object *)

Lemma release_raises (o : ref) (w w1 : World) (e : exn) :
  release o w = (Raise e, w1) -> e = ValueError.
Proof.
  unfold release. destruct (_ =? 0); [|done].
  destruct (remove_first _ _); [done|]. by intros [= <- _].
Qed.

Lemma no_InvalidRef (w : World) :
  well_formed w ->
  (forall vehicle, (vehicle < length (vehicle_heap w))%nat ->
     fst (insert_vehicle vehicle w) <> Raise InvalidRef) /\
  (forall plate new_owner, (new_owner < length (person_heap w))%nat ->
     fst (update_vehicle_owner plate new_owner w) <> Raise InvalidRef) /\
  (forall plate, fst (delete_vehicle plate w) <> Raise InvalidRef) /\
  (forall o, (o < length (person_heap w))%nat ->
     list_vehicle_by_owner o w <> Raise InvalidRef).
Proof.
  intros Hw. split; [|split; [|split]].
  - intros vehicle Hlt. destruct (lookup_lt_is_Some_2 _ _ Hlt) as [v Hv].
    rewrite (insert_vehicle_run w vehicle v) by done.
    by destruct (existsb _ _).
  - intros plate new_owner Hn. rewrite update_vehicle_owner_run by done.
    destruct (List.find _ _) as [vehicle|] eqn:Hfind; [|done].
    destruct (find_vehicle_Some _ _ _ Hw Hfind) as (_ & v & -> & _).
    destruct (same_person _ _ _); [done|].
    destruct (release (owner v) w) as [[[]|e] w1] eqn:Hrel; [done|].
    apply release_raises in Hrel as ->. done.
  - intros plate. rewrite delete_vehicle_run by done.
    destruct (List.find _ _) as [vehicle|] eqn:Hfind; [|done].
    destruct (find_vehicle_Some _ _ _ Hw Hfind) as (_ & v & -> & _).
    destruct (find_remove_first _ _ _ Hfind) as [l ->].
    destruct (release (owner v) _) as [[[]|e] w1] eqn:Hrel; [done|].
    apply release_raises in Hrel as ->. done.
  - intros o Ho. by rewrite list_vehicle_by_owner_valid.
Qed.

(** ** The successful paths, with one object per Person *)

(** A transfer to a different Person returns 1, points the vehicle to the
    new owner, takes one off the old owner's counter and adds one to the new
    owner's; the owners list then holds exactly the objects with a positive
    counter. *)
Lemma update_vehicle_owner_transfers (plate : string) (new_owner : ref)
    (w : World) (vehicle : ref) (v : Vehicle) :
  consistent w -> distinct_persons (person_heap w) ->
  (new_owner < length (person_heap w))%nat ->
  List.find (has_plate (vehicle_heap w) plate) (vehicles w) = Some vehicle ->
  vehicle_heap w !! vehicle = Some v ->
  owner v <> new_owner ->
  exists w',
    update_vehicle_owner plate new_owner w = (Return 1, w') /\
    vehicles w' = vehicles w /\
    vehicle_heap w' = <[vehicle := set_owner v new_owner]> (vehicle_heap w) /\
    (forall a,
       count_of w' a
       = count_of w a - (if Nat.eqb a (owner v) then 1 else 0)
         + (if Nat.eqb a new_owner then 1 else 0)) /\
    (forall a, a ∈ owners w' <-> 0 < count_of w' a).
Proof.
  intros Hcons Hd Hn Hfind Hv Hne. pose proof Hcons as [Hw Hnd Hl Hc].
  destruct (update_vehicle_owner_consistent plate new_owner w Hcons Hd Hn)
    as [[_ _ [_ Hmem] _] _].
  revert Hmem. rewrite update_vehicle_owner_run by done. rewrite Hfind, Hv.
  destruct (find_vehicle_Some _ _ _ Hw Hfind) as (Hin & _).
  pose proof (registered_owner_valid w vehicle v Hw Hv) as Ho.
  rewrite same_person_distinct by done.
  destruct (Nat.eqb_spec (owner v) new_owner) as [|_]; [done|].
  pose proof (registered_owner_counted w vehicle v Hc Hin Hv) as Hpos.
  destruct (release_ledger (owner v) w) as (w1 & Hrel & Hl1); try done.
  rewrite Hrel. simpl. intros Hmem. eexists. split; [done|].
  destruct (release_frame _ _ _ _ Hrel) as (Hph & Hvh & Hvs & _).
  set (w2 := set_vehicle vehicle (set_owner v new_owner) w1) in *.
  destruct (add_owner_frame new_owner w2) as (_ & Hvh2 & Hvs2).
  unfold reassigned in *. fold w2 in Hmem |- *. simpl.
  rewrite Hvh2, Hvs2. subst w2. simpl. rewrite Hvh, Hvs.
  repeat split; try done; try apply Hmem.
  intros a.
  change (bump increment_vehicle_count new_owner
            (add_owner new_owner
               (set_vehicle vehicle (set_owner v new_owner) w1)))
    with (acquire new_owner (set_vehicle vehicle (set_owner v new_owner) w1)).
  rewrite acquire_count by (simpl; by rewrite Hph, length_alter).
  change (count_of (set_vehicle vehicle (set_owner v new_owner) w1) a)
    with (count_of w1 a).
  by rewrite (release_count _ a _ _ _ Hrel Hpos).
Qed.

(** Deleting a registered plate returns 1, takes the first vehicle with
    that plate out of the list and one off its owner's counter; the owners
    list then holds exactly the objects with a positive counter. *)
Lemma delete_vehicle_registered (plate : string) (w : World)
    (vehicle : ref) (v : Vehicle) :
  consistent w -> distinct_persons (person_heap w) ->
  List.find (has_plate (vehicle_heap w) plate) (vehicles w) = Some vehicle ->
  vehicle_heap w !! vehicle = Some v ->
  exists w' l1 l2,
    delete_vehicle plate w = (Return 1, w') /\
    vehicles w = l1 ++ vehicle :: l2 /\
    vehicles w' = l1 ++ l2 /\
    vehicle_heap w' = vehicle_heap w /\
    (forall a,
       count_of w' a = count_of w a - (if Nat.eqb a (owner v) then 1 else 0)) /\
    (forall a, a ∈ owners w' <-> 0 < count_of w' a).
Proof.
  intros Hcons Hd Hfind Hv. pose proof Hcons as [Hw Hnd Hl Hc].
  destruct (delete_vehicle_consistent plate w Hcons Hd)
    as [[_ _ [_ Hmem] _] _].
  revert Hmem. rewrite delete_vehicle_run by done. rewrite Hfind, Hv.
  destruct (find_vehicle_Some _ _ _ Hw Hfind) as (Hin & _).
  destruct (find_remove_first _ _ _ Hfind) as [l Hrem]. rewrite Hrem.
  destruct (find_remove_first_split _ _ _ _ Hfind Hrem) as (l1 & l2 & Hvs & ->).
  pose proof (registered_owner_valid w vehicle v Hw Hv) as Ho.
  pose proof (registered_owner_counted w vehicle v Hc Hin Hv) as Hpos.
  set (w0 := set_vehicles (l1 ++ l2) w).
  assert (well_formed w0) as Hw0.
  { split; simpl; try apply Hw.
    eapply Forall_sublist_of; [by eapply remove_first_sublist | apply Hw]. }
  destruct (release_ledger (owner v) w0) as (w1 & Hrel & Hl1); try done.
  { by apply (ledger_frame w). }
  rewrite Hrel. simpl. intros Hmem. exists w1, l1, l2.
  destruct (release_frame _ _ _ _ Hrel) as (Hph & Hvh & Hvs1 & _).
  repeat split; try done; try apply Hmem.
  intros a. by rewrite (release_count _ a _ _ _ Hrel Hpos).
Qed.

(** X13: with one object per Person, every reachable state satisfies invariants
    2 and 3 of the register, the mutating methods return 0 or 1, and a
    Person outside the owners list has no vehicle. *)
Theorem one_object_per_person (cs : list call) (w : World) :
  run cs init = Some w ->
  distinct_persons (person_heap w) ->
  owners_exact w /\ counts_exact w /\
  (forall vehicle, (vehicle < length (vehicle_heap w))%nat ->
     fst (insert_vehicle vehicle w) = Return 0 \/
     fst (insert_vehicle vehicle w) = Return 1) /\
  (forall plate new_owner, (new_owner < length (person_heap w))%nat ->
     fst (update_vehicle_owner plate new_owner w) = Return 0 \/
     fst (update_vehicle_owner plate new_owner w) = Return 1) /\
  (forall plate,
     fst (delete_vehicle plate w) = Return 0 \/
     fst (delete_vehicle plate w) = Return 1) /\
  (forall o, (o < length (person_heap w))%nat ->
     known_owner w o = false -> list_vehicle_by_owner o w = Return []).
Proof.
  intros Hrun Hd. pose proof (reachable_consistent cs w Hrun Hd) as Hcons.
  split; [by apply consistent_owners_exact|].
  split; [by apply consistent_counts_exact|].
  split; [|split; [|split]].
  - intros vehicle Hlt. destruct (lookup_lt_is_Some_2 _ _ Hlt) as [v Hv].
    rewrite (insert_vehicle_run w vehicle v); [|apply Hcons | done].
    destruct (existsb _ _); auto.
  - intros plate new_owner Hn.
    by apply update_vehicle_owner_consistent.
  - intros plate. by apply delete_vehicle_consistent.
  - intros o Ho. by apply unlisted_owner_has_none.
Qed.

Lemma one_object_per_person_witness :
  exists w, run register_scenario init = Some w /\ owners_exact w /\ counts_exact w.
Proof.
  eexists. split; [reflexivity|].
  destruct (one_object_per_person register_scenario _ eq_refl)
    as (Howners & Hcounts & _); [|by split].
  intros a b Ha Hb. simpl in Ha, Hb.
  destruct a as [|[|a]]; destruct b as [|[|b]]; try done; simpl in *; lia.
Defined.

(** * Further properties of the file *)

(** ** Persons *)

Lemma Person_eq_sym (p q : Person) : Person_eq p q = Person_eq q p.
Proof.
  unfold Person_eq.
  by rewrite (String.eqb_sym (name p)), (String.eqb_sym (surname p)),
    (Z.eqb_sym (age p)).
Qed.

Lemma Person_eq_trans (p q r : Person) :
  Person_eq p q = true -> Person_eq q r = true -> Person_eq p r = true.
Proof. rewrite !Person_eq_true. intros (-> & -> & ->) (-> & -> & ->). done. Qed.

Lemma count_step_keeps_identity (c : count_call) :
  keeps_identity (fun p => count_step p c).
Proof.
  destruct c; [apply increment_keeps_identity | apply decrement_keeps_identity].
Qed.

(** X1: [Person.__eq__] is an equivalence relation that looks at name,
    surname and age only: calling [increment_vehicle_count] or
    [decrement_vehicle_count] on either side never changes its answer. *)
Theorem Person_eq_equivalence (p q r : Person) (c : count_call) :
  Person_eq p p = true /\
  Person_eq p q = Person_eq q p /\
  (Person_eq p q = true -> Person_eq q r = true -> Person_eq p r = true) /\
  Person_eq (count_step p c) q = Person_eq p q /\
  Person_eq p (count_step q c) = Person_eq p q.
Proof.
  split; [apply Person_eq_refl|]. split; [apply Person_eq_sym|].
  split; [apply Person_eq_trans|].
  destruct (count_step_keeps_identity c p) as (Hn & Hs & Ha).
  destruct (count_step_keeps_identity c q) as (Hn' & Hs' & Ha').
  split; by apply Person_eq_identity.
Qed.

Lemma Person_eq_equivalence_witness :
  Person_eq (mkPerson "John" "Doe" 20 0) (mkPerson "John" "Doe" 20 7) = true.
Proof.
  apply (proj1 (proj2 (proj2 (Person_eq_equivalence
           (mkPerson "John" "Doe" 20 0) (mkPerson "John" "Doe" 20 3)
           (mkPerson "John" "Doe" 20 7) Increment)))); reflexivity.
Defined.

Lemma increments_cons (c : count_call) (cs : list count_call) :
  increments (c :: cs)
  = (if c is Increment then 1 else 0) + increments cs.
Proof. unfold increments. destruct c; simpl; lia. Qed.

Lemma count_calls_bound (cs : list count_call) (p : Person) :
  vehicle_count (foldl count_step p cs) <= vehicle_count p + increments cs.
Proof.
  revert p. induction cs as [|c cs IH]; intros p.
  - unfold increments. simpl. lia.
  - simpl. rewrite increments_cons. specialize (IH (count_step p c)).
    destruct c; simpl in *; [lia|].
    unfold decrement_vehicle_count in *.
    destruct (0 <? vehicle_count p); simpl in *; lia.
Qed.

Lemma decrement_increment (p : Person) :
  0 <= vehicle_count p ->
  decrement_vehicle_count (increment_vehicle_count p) = p.
Proof.
  intros Hp. unfold decrement_vehicle_count, increment_vehicle_count. simpl.
  destruct (Z.ltb_spec 0 (vehicle_count p + 1)); [|lia].
  destruct p as [pn ps pa pc]. simpl. f_equal. lia.
Qed.

(** X2: on a Person whose counter is not negative,
    [increment_vehicle_count] followed by [decrement_vehicle_count] restores
    the object; and after any sequence of the two calls on a fresh Person the
    counter is at most the number of increments in the sequence. *)
Theorem increment_then_decrement
    (p : Person) (n s : string) (a : Z) (cs : list count_call) :
  (0 <= vehicle_count p ->
   decrement_vehicle_count (increment_vehicle_count p) = p) /\
  vehicle_count (foldl count_step (Person_init n s a) cs) <= increments cs.
Proof.
  split.
  - apply decrement_increment.
  - pose proof (count_calls_bound cs (Person_init n s a)) as Hb.
    simpl in Hb. lia.
Qed.

Lemma increment_then_decrement_witness :
  decrement_vehicle_count (increment_vehicle_count (mkPerson "John" "Doe" 20 0))
  = mkPerson "John" "Doe" 20 0.
Proof.
  apply (proj1 (increment_then_decrement (mkPerson "John" "Doe" 20 0)
                  "John" "Doe" 20 [])).
  simpl. lia.
Defined.

(** ** Looking vehicles up *)

Lemma find_first (f : ref -> bool) (l : list ref) :
  match List.find f l with
  | Some x =>
      exists i, l !! i = Some x /\ f x = true /\
        forall j y, (j < i)%nat -> l !! j = Some y -> f y = false
  | None => Forall (fun y => f y = false) l
  end.
Proof.
  induction l as [|a l IH]; simpl; [constructor|].
  destruct (f a) eqn:Hfa.
  - exists 0%nat. repeat split; try done. intros j y Hj. lia.
  - destruct (List.find f l) as [x|].
    + destruct IH as (i & Hi & Hx & Hbefore). exists (S i).
      repeat split; try done. intros [|j] y Hj Hy; simpl in Hy.
      * by simplify_eq.
      * eapply Hbefore; [|done]. lia.
    + by constructor.
Qed.

Lemma has_plate_true (h : list Vehicle) (plate : string) (a : ref) :
  has_plate h plate a = true <-> plate_of h a = Some plate.
Proof.
  unfold has_plate, plate_of. destruct (h !! a) as [v|]; simpl; [|done].
  rewrite String.eqb_eq. split; [by intros -> | by intros [= ->]].
Qed.

Lemma has_plate_false (h : list Vehicle) (plate : string) (a : ref) :
  has_plate h plate a = false <-> plate_of h a <> Some plate.
Proof.
  rewrite <- has_plate_true. by destruct (has_plate h plate a).
Qed.

(** X3: [_find_vehicle_by_plate] never raises; it returns the first
    vehicle of the list that carries the plate (no vehicle before it does),
    and [None] exactly when no registered vehicle carries it. *)
Theorem find_vehicle_by_plate_first (plate : string) (w : World) :
  well_formed w ->
  match _find_vehicle_by_plate plate w with
  | Return (Some vehicle) =>
      exists i,
        vehicles w !! i = Some vehicle /\
        plate_of (vehicle_heap w) vehicle = Some plate /\
        forall j, (j < i)%nat -> plates w !! j <> Some (Some plate)
  | Return None => Some plate ∉ plates w
  | Raise _ => False
  end.
Proof.
  intros Hw. rewrite find_vehicle_valid by done.
  pose proof (find_first (has_plate (vehicle_heap w) plate) (vehicles w)) as Hf.
  destruct (List.find _ _) as [vehicle|].
  - destruct Hf as (i & Hi & Hx & Hbefore). exists i.
    split; [done|]. split; [by apply has_plate_true|].
    intros j Hj. unfold plates. rewrite list_lookup_fmap.
    destruct (vehicles w !! j) as [y|] eqn:Hy; simpl; [|done].
    intros [= Hplate]. apply has_plate_true in Hplate.
    by rewrite (Hbefore j y Hj Hy) in Hplate.
  - unfold plates. intros (y & Hplate & Hy)%list_elem_of_fmap.
    symmetry in Hplate. apply has_plate_true in Hplate.
    by rewrite (proj1 (Forall_forall _ _) Hf y Hy) in Hplate.
Qed.

Lemma find_vehicle_by_plate_first_witness :
  exists i,
    vehicles two_johns_registered !! i = Some 1%nat /\
    plate_of (vehicle_heap two_johns_registered) 1%nat = Some "abc1" /\
    forall j, (j < i)%nat -> plates two_johns_registered !! j <> Some (Some "abc1").
Proof.
  apply (find_vehicle_by_plate_first "abc1" two_johns_registered).
  split; simpl; repeat constructor.
Defined.

(** X4: [list_vehicle_by_owner] never raises; its result is the list of
    registered vehicles whose owner equals the given Person, in the order of
    the vehicles list, and nothing else. *)
Theorem list_vehicle_by_owner_filter (o : ref) (w : World) :
  well_formed w -> (o < length (person_heap w))%nat ->
  exists l,
    list_vehicle_by_owner o w = Return l /\
    l = List.filter (owned_by w o) (vehicles w) /\
    l `sublist_of` vehicles w /\
    forall vehicle,
      vehicle ∈ l <-> vehicle ∈ vehicles w /\ owned_by w o vehicle = true.
Proof.
  intros Hw Ho. eexists. split; [by apply list_vehicle_by_owner_valid|].
  split; [done|]. split.
  - induction (vehicles w) as [|a l IH]; simpl; [done|].
    destruct (owned_by w o a); [by apply sublist_skip | by apply sublist_cons].
  - intros vehicle. rewrite !list_elem_of_In. apply filter_In.
Qed.

Lemma list_vehicle_by_owner_filter_witness :
  exists l,
    list_vehicle_by_owner 1%nat two_johns_registered = Return l /\
    l = [0; 1]%nat.
Proof.
  destruct (list_vehicle_by_owner_filter 1%nat two_johns_registered)
    as (l & Hl & Hfilter & _).
  - split; simpl; repeat constructor.
  - simpl. lia.
  - exists l. split; [exact Hl | exact Hfilter].
Defined.

Lemma find_none_Forall (f : ref -> bool) (l : list ref) :
  Forall (fun y => f y = false) l -> List.find f l = None.
Proof. induction 1 as [|a l Ha Hl IH]; simpl; [done|]. by rewrite Ha. Qed.

Lemma find_app_last (f : ref -> bool) (l : list ref) (x : ref) :
  Forall (fun y => f y = false) l -> f x = true ->
  List.find f (l ++ [x]) = Some x.
Proof.
  intros Hl Hx. induction Hl as [|a l Ha Hl IH]; simpl.
  - by rewrite Hx.
  - by rewrite Ha.
Qed.

Lemma existsb_same (f g : ref -> bool) (l : list ref) :
  (forall x, f x = g x) -> existsb f l = existsb g l.
Proof. intros Hfg. induction l as [|a l IH]; simpl; [done|]. by rewrite Hfg, IH. Qed.

Lemma existsb_false_Forall (f : ref -> bool) (l : list ref) :
  existsb f l = false -> Forall (fun y => f y = false) l.
Proof.
  induction l as [|a l IH]; simpl; [constructor|].
  intros [Ha Hl]%orb_false_iff. constructor; auto.
Qed.

(** X5: after [insert_vehicle(vehicle)], whatever it returned, looking up
    the plate of [vehicle] finds a registered vehicle with that plate: the
    vehicle itself when the call returned 1, the vehicle that was already
    registered when it returned 0. *)
Theorem insert_then_find (vehicle : ref) (v : Vehicle) (w : World) :
  well_formed w -> vehicle_heap w !! vehicle = Some v ->
  exists found,
    _find_vehicle_by_plate (registration_plate v) (snd (insert_vehicle vehicle w))
    = Return (Some found) /\
    plate_of (vehicle_heap w) found = Some (registration_plate v) /\
    (fst (insert_vehicle vehicle w) = Return 1 -> found = vehicle) /\
    (fst (insert_vehicle vehicle w) = Return 0 -> found ∈ vehicles w).
Proof.
  intros Hw Hv.
  assert (vehicle < length (vehicle_heap w))%nat as Hlt
    by (by eapply lookup_lt_Some).
  pose proof (insert_vehicle_well_formed vehicle w Hw Hlt) as Hw1.
  rewrite find_vehicle_valid by done. revert Hw1.
  rewrite (insert_vehicle_run w vehicle v) by done.
  rewrite (existsb_same _ (has_plate (vehicle_heap w) (registration_plate v)))
    by (intros el; by apply same_plate_has_plate).
  destruct (existsb _ _) eqn:Hdup; simpl; intros Hw1.
  - pose proof (find_first (has_plate (vehicle_heap w) (registration_plate v))
                  (vehicles w)) as Hf.
    destruct (List.find _ _) as [found|].
    + destruct Hf as (i & Hi & Hfound & _). exists found.
      split; [done|]. split; [by apply has_plate_true|]. split; [done|].
      intros _. by eapply list_elem_of_lookup_2.
    + apply existsb_exists in Hdup as (el & Hel & Hplate).
      apply list_elem_of_In in Hel.
      by rewrite (proj1 (Forall_forall _ _) Hf el Hel) in Hplate.
  - exists vehicle.
    set (w1 := set_vehicles (vehicles w ++ [vehicle]) w).
    destruct (add_owner_frame (owner v) w1) as (_ & Hvh & Hvs).
    rewrite Hvh, Hvs. simpl.
    assert (has_plate (vehicle_heap w) (registration_plate v) vehicle = true)
      as Hplate.
    { unfold has_plate. rewrite Hv. apply String.eqb_refl. }
    split; [|split; [by apply has_plate_true | by split]].
    f_equal. apply find_app_last; [by apply existsb_false_Forall | done].
Qed.

Lemma insert_then_find_witness :
  exists found,
    _find_vehicle_by_plate "abc1"
      (snd (insert_vehicle 1%nat second_john_left)) = Return (Some found) /\
    plate_of (vehicle_heap second_john_left) found = Some "abc1".
Proof.
  destruct (insert_then_find 1%nat (mkVehicle "abc1" "20221123" 1%nat)
              second_john_left) as (found & Hfind & Hplate & _).
  - split; simpl; repeat constructor.
  - reflexivity.
  - exists found. split; [exact Hfind | exact Hplate].
Defined.

Lemma plates_app_cons (h : list Vehicle) (l1 l2 : list ref) (x : ref) (plate : string) :
  NoDup (plate_of h <$> (l1 ++ x :: l2)) -> plate_of h x = Some plate ->
  Forall (fun y => has_plate h plate y = false) (l1 ++ l2).
Proof.
  rewrite fmap_app, fmap_cons. intros Hnd Hx.
  apply NoDup_app in Hnd as (_ & Hnd12 & Hnd2).
  apply NoDup_cons in Hnd2 as (Hx2 & _).
  apply Forall_app. split; apply Forall_forall; intros y Hy;
    apply has_plate_false; intros Hplate.
  - apply (Hnd12 (Some plate)).
    + apply list_elem_of_fmap. by exists y.
    + rewrite Hx. by left.
  - apply Hx2. rewrite Hx. apply list_elem_of_fmap. by exists y.
Qed.

(** X6: in every reachable state, once [delete_vehicle(plate)] has run
    (whether it returned or raised) no registered vehicle carries the plate:
    the lookup gives [None] and a second [delete_vehicle(plate)] returns 0
    and changes nothing. *)
Theorem delete_vehicle_twice (cs : list call) (w : World) (plate : string) :
  run cs init = Some w ->
  _find_vehicle_by_plate plate (snd (delete_vehicle plate w)) = Return None /\
  delete_vehicle plate (snd (delete_vehicle plate w))
  = (Return 0, snd (delete_vehicle plate w)).
Proof.
  intros Hrun. destruct (reachable_plates w) as [Hw Hnd]; [by exists cs|].
  pose proof (delete_vehicle_well_formed plate w Hw) as Hw1.
  assert (List.find (has_plate (vehicle_heap (snd (delete_vehicle plate w))) plate)
            (vehicles (snd (delete_vehicle plate w))) = None) as Hgone.
  { clear Hw1. rewrite delete_vehicle_run by done.
    destruct (List.find (has_plate (vehicle_heap w) plate) (vehicles w))
      as [vehicle|] eqn:Hfind; [|done].
    destruct (find_vehicle_Some _ _ _ Hw Hfind) as (Hin & v & Hv & Hplate).
    destruct (find_remove_first _ _ _ Hfind) as [l Hrem]. rewrite Hv, Hrem.
    destruct (find_remove_first_split _ _ _ _ Hfind Hrem)
      as (l1 & l2 & Hvs & ->).
    destruct (release (owner v) _) as [r w1] eqn:Hrel.
    destruct (release_frame _ _ _ _ Hrel) as (_ & Hvh & Hvs1 & _).
    assert (List.find (has_plate (vehicle_heap w1) plate) (vehicles w1) = None)
      as Hnone.
    { rewrite Hvh, Hvs1. simpl. apply find_none_Forall.
      apply (plates_app_cons _ _ _ vehicle).
      - unfold plates in Hnd. by rewrite Hvs in Hnd.
      - unfold plate_of. rewrite Hv. simpl. by rewrite Hplate. }
    by destruct r as [[]|e]. }
  split.
  - by rewrite find_vehicle_valid, Hgone.
  - by rewrite delete_vehicle_run, Hgone.
Qed.

Lemma delete_vehicle_twice_witness :
  delete_vehicle "abc1" (snd (delete_vehicle "abc1" second_john_left))
  = (Return 0, snd (delete_vehicle "abc1" second_john_left)).
Proof.
  apply (delete_vehicle_twice (two_johns ++ [DeleteVehicle "abc0"])
           second_john_left "abc1").
  reflexivity.
Defined.

(** ** What the calls do to the objects *)

Lemma person_steps_trans (h1 h2 h3 : list Person) :
  person_steps h1 h2 -> person_steps h2 h3 -> person_steps h1 h3.
Proof.
  intros H12 H23. induction H23 as [h|h h' a c _ IH|h h' n s a _ IH].
  - done.
  - apply steps_call. by apply IH.
  - apply steps_new. by apply IH.
Qed.

Lemma bump_increment_steps (h : list Person) (o : ref) (w : World) :
  person_steps h (person_heap w) ->
  person_steps h (person_heap (bump increment_vehicle_count o w)).
Proof. intros Hh. by apply (steps_call h (person_heap w) o Increment). Qed.

Lemma bump_decrement_steps (h : list Person) (o : ref) (w : World) :
  person_steps h (person_heap w) ->
  person_steps h (person_heap (bump decrement_vehicle_count o w)).
Proof. intros Hh. by apply (steps_call h (person_heap w) o Decrement). Qed.

Lemma release_steps (o : ref) (w w1 : World) (r : outcome unit) :
  release o w = (r, w1) -> person_steps (person_heap w) (person_heap w1).
Proof.
  intros (-> & _)%release_frame.
  apply (bump_decrement_steps (person_heap w) o w), steps_none.
Qed.

Lemma reassigned_steps (h : list Person) (vehicle : ref) (v : Vehicle)
    (new_owner : ref) (w : World) :
  person_steps h (person_heap w) ->
  person_steps h (person_heap (reassigned vehicle v new_owner w)).
Proof.
  intros Hh. unfold reassigned. apply bump_increment_steps.
  by destruct (add_owner_frame new_owner
                 (set_vehicle vehicle (set_owner v new_owner) w)) as (-> & _).
Qed.

Lemma exec_person_steps (c : call) (w : World) :
  well_formed w -> call_ok c w = true ->
  person_steps (person_heap w) (person_heap (exec c w)).
Proof.
  intros Hw Hok. destruct c as [n s a|p d o|v|p o|p]; simpl in *.
  - apply steps_new, steps_none.
  - apply steps_none.
  - apply bool_decide_eq_true in Hok.
    destruct (lookup_lt_is_Some_2 _ _ Hok) as [u Hu].
    rewrite (insert_vehicle_run w v u) by done.
    destruct (existsb _ _); simpl; [apply steps_none|].
    apply bump_increment_steps.
    destruct (add_owner_frame (owner u) (set_vehicles (vehicles w ++ [v]) w))
      as (-> & _).
    apply steps_none.
  - apply bool_decide_eq_true in Hok.
    rewrite update_vehicle_owner_run by done.
    destruct (List.find _ _) as [vehicle|]; [|apply steps_none].
    destruct (vehicle_heap w !! vehicle) as [v|]; [|apply steps_none].
    destruct (same_person _ _ _); [apply steps_none|].
    destruct (release (owner v) w) as [r w1] eqn:Hrel.
    pose proof (release_steps _ _ _ _ Hrel) as Hsteps.
    destruct r as [[]|e]; simpl; [|done].
    by apply reassigned_steps.
  - rewrite delete_vehicle_run by done.
    destruct (List.find _ _) as [vehicle|]; [|apply steps_none].
    destruct (vehicle_heap w !! vehicle) as [v|]; [|apply steps_none].
    destruct (remove_first _ _) as [l|]; [|apply steps_none].
    destruct (release (owner v) (set_vehicles l w)) as [r w1] eqn:Hrel.
    pose proof (release_steps _ _ _ _ Hrel) as Hsteps.
    by destruct r as [[]|e].
Qed.

Lemma run_well_formed (cs : list call) (w w' : World) :
  well_formed w -> run cs w = Some w' -> well_formed w'.
Proof.
  apply (run_invariant well_formed). intros c w0. apply exec_well_formed.
Qed.

Lemma run_person_steps (cs : list call) (w w' : World) :
  well_formed w -> run cs w = Some w' ->
  person_steps (person_heap w) (person_heap w').
Proof.
  revert w. induction cs as [|c cs IH]; intros w Hw Hrun; simpl in *.
  - simplify_eq. apply steps_none.
  - destruct (call_ok c w) eqn:Hok; [|done].
    eapply person_steps_trans; [by apply exec_person_steps|].
    apply IH; [by apply exec_well_formed | done].
Qed.

Lemma person_steps_identity (h h' : list Person) (a : ref) (p : Person) :
  person_steps h h' -> h !! a = Some p ->
  exists p', h' !! a = Some p' /\ identity p' = identity p.
Proof.
  intros Hsteps Hp. induction Hsteps as [h|h h' b c _ IH|h h' n s x _ IH].
  - by exists p.
  - destruct (IH Hp) as (p' & Hp' & Hid).
    destruct (decide (b = a)) as [->|Hne].
    + exists (count_step p' c). rewrite list_lookup_alter_eq, Hp'.
      split; [done|]. rewrite <- Hid. unfold identity.
      by destruct (count_step_keeps_identity c p') as (-> & -> & ->).
    + exists p'. by rewrite list_lookup_alter_ne.
  - destruct (IH Hp) as (p' & Hp' & Hid). exists p'.
    split; [|done]. by apply lookup_app_l_Some.
Qed.

Lemma exec_vehicle_registration (c : call) (w : World) (a : ref) (v : Vehicle) :
  well_formed w -> call_ok c w = true -> vehicle_heap w !! a = Some v ->
  exists v', vehicle_heap (exec c w) !! a = Some v' /\
             registration v' = registration v.
Proof.
  intros Hw Hok Hv. destruct c as [n s x|p d o|u|p o|p]; simpl in *.
  - by exists v.
  - exists v. split; [|done]. by apply lookup_app_l_Some.
  - apply bool_decide_eq_true in Hok.
    destruct (lookup_lt_is_Some_2 _ _ Hok) as [u' Hu].
    rewrite (insert_vehicle_run w u u') by done.
    destruct (existsb _ _); simpl; [by exists v|].
    destruct (add_owner_frame (owner u') (set_vehicles (vehicles w ++ [u]) w))
      as (_ & -> & _).
    by exists v.
  - apply bool_decide_eq_true in Hok.
    rewrite update_vehicle_owner_run by done.
    destruct (List.find _ _) as [vehicle|]; [|by exists v].
    destruct (vehicle_heap w !! vehicle) as [u|] eqn:Hu; [|by exists v].
    destruct (same_person _ _ _); [by exists v|].
    destruct (release (owner u) w) as [r w1] eqn:Hrel.
    destruct (release_frame _ _ _ _ Hrel) as (_ & Hvh & _).
    destruct r as [[]|e]; simpl; [|rewrite Hvh; by exists v].
    unfold reassigned. simpl.
    destruct (add_owner_frame o (set_vehicle vehicle (set_owner u o) w1))
      as (_ & -> & _).
    simpl. rewrite Hvh. destruct (decide (vehicle = a)) as [->|Hne].
    + exists (set_owner u o).
      rewrite list_lookup_insert_eq by (by eapply lookup_lt_Some).
      split; [done|]. by simplify_eq.
    + exists v. by rewrite list_lookup_insert_ne.
  - destruct (delete_vehicle_vehicles p w Hw) as [-> _]. by exists v.
Qed.

(** X7: no call ever changes the name, surname or age of a Person object,
    nor the registration plate or creation date of a Vehicle object: the
    register writes nothing but [vehicle_count] and [owner]. *)
Theorem calls_keep_identity (cs : list call) (w w' : World) :
  well_formed w -> run cs w = Some w' ->
  (forall a p, person_heap w !! a = Some p ->
     exists p', person_heap w' !! a = Some p' /\ identity p' = identity p) /\
  (forall a v, vehicle_heap w !! a = Some v ->
     exists v', vehicle_heap w' !! a = Some v' /\
                registration v' = registration v).
Proof.
  intros Hw Hrun. split.
  - intros a p. apply person_steps_identity. by eapply run_person_steps.
  - revert w Hw Hrun. induction cs as [|c cs IH]; intros w Hw Hrun a v Hv;
      simpl in *.
    + simplify_eq. by exists v.
    + destruct (call_ok c w) eqn:Hok; [|done].
      destruct (exec_vehicle_registration c w a v Hw Hok Hv)
        as (v1 & Hv1 & Hreg1).
      destruct (IH (exec c w) (exec_well_formed c w Hw Hok) Hrun a v1 Hv1)
        as (v' & Hv' & Hreg').
      exists v'. split; [done | congruence].
Qed.

Lemma calls_keep_identity_witness :
  exists p' v',
    person_heap second_john_left !! 0%nat = Some p' /\
    identity p' = ("John", "Doe", 20) /\
    vehicle_heap second_john_left !! 1%nat = Some v' /\
    registration v' = ("abc1", "20221123").
Proof.
  destruct (calls_keep_identity [DeleteVehicle "abc0"]
              two_johns_registered second_john_left) as [Hp Hv].
  - split; simpl; repeat constructor.
  - reflexivity.
  - destruct (Hp 0%nat (mkPerson "John" "Doe" 20 1) eq_refl) as (p' & Hp' & Hid).
    destruct (Hv 1%nat (mkVehicle "abc1" "20221123" 1%nat) eq_refl)
      as (v' & Hv' & Hreg).
    exists p', v'. repeat split; assumption.
Defined.

(** ** The owners list never holds two equal Persons *)

Lemma same_person_sym (h : list Person) (a b : ref) :
  same_person h a b = same_person h b a.
Proof.
  unfold same_person. destruct (h !! a), (h !! b); try done.
  apply Person_eq_sym.
Qed.

Lemma no_equal_snoc (h : list Person) (l : list ref) (o : ref) :
  no_equal h l -> Forall (fun el => same_person h el o = false) l ->
  no_equal h (l ++ [o]).
Proof.
  induction l as [|a l IH]; simpl.
  - intros _ _. by split.
  - intros [Ha Hl] [Hao Hlo]%Forall_cons. split; [|by apply IH].
    apply Forall_app. split; [done | by apply Forall_singleton].
Qed.

Lemma no_equal_sublist (h : list Person) (l l' : list ref) :
  l' `sublist_of` l -> no_equal h l -> no_equal h l'.
Proof.
  induction 1 as [|x l1 l2 Hsub IH|x l1 l2 Hsub IH]; simpl.
  - done.
  - intros [Hx Hl]. split; [|by apply IH].
    by eapply Forall_sublist_of.
  - intros [_ Hl]. by apply IH.
Qed.

Lemma no_equal_same (h h' : list Person) (l : list ref) :
  Forall (fun a => Forall (fun b => same_person h' a b = same_person h a b) l) l ->
  no_equal h l -> no_equal h' l.
Proof.
  induction l as [|a l IH]; simpl; [done|].
  intros [[_ Ha]%Forall_cons Hl]%Forall_cons [Hal Hno]. split.
  - clear -Ha Hal. induction Hal as [|b l Hb Hl IH]; [constructor|].
    apply Forall_cons in Ha as [Hab Ha]. constructor; [congruence | auto].
  - apply IH; [|done]. eapply Forall_impl; [exact Hl|].
    intros b Hb. simpl in Hb. by apply Forall_cons in Hb as [_ Hb].
Qed.

Lemma no_equal_identities (h h' : list Person) (l : list ref) :
  same_identities h h' -> Forall (fun a => a < length h)%nat l ->
  no_equal h l -> no_equal h' l.
Proof.
  intros [_ Hsame] Hl. apply no_equal_same.
  apply Forall_forall. intros a Ha. apply Forall_forall. intros b Hb.
  apply Hsame; by eapply (proj1 (Forall_forall _ _) Hl).
Qed.

Lemma add_owner_no_equal (o : ref) (w : World) :
  no_equal (person_heap w) (owners w) ->
  no_equal (person_heap (add_owner o w)) (owners (add_owner o w)).
Proof.
  intros Hno. unfold add_owner, known_owner.
  destruct (existsb _ _) eqn:Hknown; [done|]. simpl.
  apply no_equal_snoc; [done | by apply existsb_false_Forall].
Qed.

Lemma bump_no_equal (f : Person -> Person) (a : ref) (w : World) :
  keeps_identity f ->
  no_equal (person_heap w) (owners w) ->
  no_equal (person_heap (bump f a w)) (owners (bump f a w)).
Proof.
  intros Hf. simpl. apply no_equal_same.
  apply Forall_forall. intros x _. apply Forall_forall. intros y _.
  by apply same_person_alter.
Qed.

Lemma release_no_equal (o : ref) (w w1 : World) (r : outcome unit) :
  release o w = (r, w1) ->
  no_equal (person_heap w) (owners w) ->
  no_equal (person_heap w1) (owners w1).
Proof.
  intros (Hph & _ & _ & Hsub)%release_frame Hno. rewrite Hph.
  apply (no_equal_sublist _ (owners w)); [done|].
  by apply (bump_no_equal decrement_vehicle_count o w);
    [apply decrement_keeps_identity|].
Qed.

Lemma exec_no_equal (c : call) (w : World) :
  well_formed w -> call_ok c w = true ->
  no_equal (person_heap w) (owners w) ->
  no_equal (person_heap (exec c w)) (owners (exec c w)).
Proof.
  intros Hw Hok Hno. destruct c as [n s a|p d o|v|p o|p]; simpl in *.
  - apply (no_equal_identities (person_heap w));
      [apply same_identities_app | apply Hw | done].
  - done.
  - apply bool_decide_eq_true in Hok.
    destruct (lookup_lt_is_Some_2 _ _ Hok) as [u Hu].
    rewrite (insert_vehicle_run w v u) by done.
    destruct (existsb _ _); simpl; [done|].
    apply (bump_no_equal increment_vehicle_count (owner u)
             (add_owner (owner u) (set_vehicles (vehicles w ++ [v]) w)));
      [apply increment_keeps_identity|].
    by apply (add_owner_no_equal (owner u) (set_vehicles (vehicles w ++ [v]) w)).
  - apply bool_decide_eq_true in Hok.
    rewrite update_vehicle_owner_run by done.
    destruct (List.find _ _) as [vehicle|]; [|done].
    destruct (vehicle_heap w !! vehicle) as [v|]; [|done].
    destruct (same_person _ _ _); [done|].
    destruct (release (owner v) w) as [r w1] eqn:Hrel.
    pose proof (release_no_equal _ _ _ _ Hrel Hno) as Hno1.
    destruct r as [[]|e]; simpl; [|done].
    unfold reassigned.
    apply (bump_no_equal increment_vehicle_count o
             (add_owner o (set_vehicle vehicle (set_owner v o) w1)));
      [apply increment_keeps_identity|].
    by apply (add_owner_no_equal o (set_vehicle vehicle (set_owner v o) w1)).
  - rewrite delete_vehicle_run by done.
    destruct (List.find _ _) as [vehicle|]; [|done].
    destruct (vehicle_heap w !! vehicle) as [v|]; [|done].
    destruct (remove_first _ _) as [l|]; [|done].
    destruct (release (owner v) (set_vehicles l w)) as [r w1] eqn:Hrel.
    pose proof (release_no_equal _ _ _ _ Hrel Hno) as Hno1.
    by destruct r as [[]|e].
Qed.

Lemma no_equal_lookup (h : list Person) (l : list ref) (i j : nat) (a b : ref) :
  no_equal h l -> (i < j)%nat -> l !! i = Some a -> l !! j = Some b ->
  same_person h a b = false.
Proof.
  revert i j. induction l as [|x l IH]; intros i j Hno Hij Hi Hj; [done|].
  destruct Hno as [Hx Hl]. destruct j as [|j]; [lia|]. simpl in Hj.
  destruct i as [|i]; simpl in Hi.
  - simplify_eq. eapply (proj1 (Forall_forall _ _) Hx).
    by eapply list_elem_of_lookup_2.
  - apply (IH i j); [done | lia | done | done].
Qed.

(** X8: in every reachable state (one object per Person or not, and also
    after a call that raised) no two entries of the owners list are equal
    Persons: [insert_vehicle] and [update_vehicle_owner] append an owner only
    when no equal Person is listed. *)
Theorem owners_never_equal (cs : list call) (w : World) :
  run cs init = Some w ->
  forall i j a b,
    owners w !! i = Some a -> owners w !! j = Some b ->
    same_person (person_heap w) a b = true -> i = j.
Proof.
  intros Hrun.
  assert (well_formed w /\ no_equal (person_heap w) (owners w)) as [Hw Hno].
  { eapply (run_invariant
              (fun w => well_formed w /\ no_equal (person_heap w) (owners w)));
      [| |done].
    - intros c w0 [Hw0 Hno0] Hok. split;
        [by apply exec_well_formed | by apply exec_no_equal].
    - split; [apply init_well_formed | done]. }
  intros i j a b Hi Hj Hsame.
  destruct (Nat.lt_trichotomy i j) as [Hlt|[Heq|Hgt]]; [|done|].
  - by rewrite (no_equal_lookup _ _ i j a b Hno Hlt Hi Hj) in Hsame.
  - rewrite same_person_sym in Hsame.
    by rewrite (no_equal_lookup _ _ j i b a Hno Hgt Hj Hi) in Hsame.
Qed.

Lemma owners_never_equal_witness :
  exists w,
    run two_johns init = Some w /\
    forall i j a b,
      owners w !! i = Some a -> owners w !! j = Some b ->
      same_person (person_heap w) a b = true -> i = j.
Proof.
  exists two_johns_registered. split; [reflexivity|].
  apply (owners_never_equal two_johns two_johns_registered). reflexivity.
Defined.

(** ** What the calls do to the counters *)

Lemma release_taken_off (o a : ref) (w w1 : World) (r : outcome unit) :
  release o w = (r, w1) -> count_of w1 a = count_of w a - taken_off w o a.
Proof.
  intros (Hph & _)%release_frame.
  rewrite (count_of_frame (bump decrement_vehicle_count o w) w1) by done.
  unfold taken_off. destruct (Nat.eqb_spec a o) as [->|Hne]; simpl.
  - rewrite count_of_decrement. destruct (0 <? count_of w o); lia.
  - rewrite count_of_bump_ne by done. lia.
Qed.

Lemma insert_vehicle_deltas (vehicle : ref) (v : Vehicle) (w : World) :
  well_formed w -> vehicle_heap w !! vehicle = Some v ->
  insert_vehicle vehicle w = (Return 0, w) \/
  (fst (insert_vehicle vehicle w) = Return 1 /\
   forall a,
     count_of (snd (insert_vehicle vehicle w)) a
     = count_of w a + (if Nat.eqb a (owner v) then 1 else 0) /\
     tally (owner_is (vehicle_heap (snd (insert_vehicle vehicle w))) a)
       (vehicles (snd (insert_vehicle vehicle w)))
     = tally (owner_is (vehicle_heap w) a) (vehicles w)
       + (if Nat.eqb a (owner v) then 1 else 0)).
Proof.
  intros Hw Hv. rewrite (insert_vehicle_run w vehicle v) by done.
  destruct (existsb _ _); [by left|]. right. simpl. split; [done|].
  pose proof (registered_owner_valid w vehicle v Hw Hv) as Ho.
  set (w1 := set_vehicles (vehicles w ++ [vehicle]) w).
  change (bump increment_vehicle_count (owner v) (add_owner (owner v) w1))
    with (acquire (owner v) w1).
  intros a. split.
  - by rewrite acquire_count.
  - destruct (add_owner_frame (owner v) w1) as (_ & Hvh & Hvs).
    unfold acquire. simpl. rewrite Hvh, Hvs. simpl.
    rewrite tally_app, tally_cons, (owner_is_lookup _ _ _ v) by done.
    rewrite (Nat.eqb_sym a).
    change (tally (owner_is (vehicle_heap w) a) []) with 0. lia.
Qed.

Lemma delete_vehicle_deltas (plate : string) (w : World) :
  well_formed w ->
  delete_vehicle plate w = (Return 0, w) \/
  exists vehicle v,
    vehicle ∈ vehicles w /\ vehicle_heap w !! vehicle = Some v /\
    forall a,
      count_of (snd (delete_vehicle plate w)) a
      = count_of w a - taken_off w (owner v) a /\
      tally (owner_is (vehicle_heap (snd (delete_vehicle plate w))) a)
        (vehicles (snd (delete_vehicle plate w)))
      = tally (owner_is (vehicle_heap w) a) (vehicles w)
        - (if Nat.eqb a (owner v) then 1 else 0).
Proof.
  intros Hw. rewrite delete_vehicle_run by done.
  destruct (List.find _ _) as [vehicle|] eqn:Hfind; [|by left]. right.
  destruct (find_vehicle_Some _ _ _ Hw Hfind) as (Hin & v & Hv & Hplate).
  destruct (find_remove_first _ _ _ Hfind) as [l Hrem]. rewrite Hv, Hrem.
  destruct (find_remove_first_split _ _ _ _ Hfind Hrem) as (l1 & l2 & Hvs & ->).
  exists vehicle, v. split; [done|]. split; [done|].
  destruct (release (owner v) _) as [r w1] eqn:Hrel.
  destruct (release_frame _ _ _ _ Hrel) as (_ & Hvh & Hvs1 & _).
  pose proof (fun a => release_taken_off _ a _ _ _ Hrel) as Hcount.
  assert (forall a,
            count_of w1 a = count_of w a - taken_off w (owner v) a /\
            tally (owner_is (vehicle_heap w1) a) (vehicles w1)
            = tally (owner_is (vehicle_heap w) a) (vehicles w)
              - (if Nat.eqb a (owner v) then 1 else 0)) as Hgoal.
  { intros a. split; [apply Hcount|].
    rewrite Hvh, Hvs1, Hvs. simpl.
    rewrite !tally_app, tally_cons, (owner_is_lookup _ _ _ v) by done.
    rewrite (Nat.eqb_sym a). lia. }
  by destruct r as [[]|e].
Qed.

Lemma update_vehicle_owner_deltas (plate : string) (new_owner : ref) (w : World) :
  well_formed w -> (new_owner < length (person_heap w))%nat ->
  NoDup (vehicles w) ->
  update_vehicle_owner plate new_owner w = (Return 0, w) \/
  exists vehicle v,
    vehicle ∈ vehicles w /\ vehicle_heap w !! vehicle = Some v /\
    owner v <> new_owner /\
    ((is_raise (fst (update_vehicle_owner plate new_owner w)) = true /\
      vehicle_heap (snd (update_vehicle_owner plate new_owner w))
      = vehicle_heap w /\
      vehicles (snd (update_vehicle_owner plate new_owner w)) = vehicles w /\
      forall a,
        count_of (snd (update_vehicle_owner plate new_owner w)) a
        = count_of w a - taken_off w (owner v) a) \/
     (fst (update_vehicle_owner plate new_owner w) = Return 1 /\
      forall a,
        count_of (snd (update_vehicle_owner plate new_owner w)) a
        = count_of w a - taken_off w (owner v) a
          + (if Nat.eqb a new_owner then 1 else 0) /\
        tally (owner_is
                 (vehicle_heap (snd (update_vehicle_owner plate new_owner w))) a)
          (vehicles (snd (update_vehicle_owner plate new_owner w)))
        = tally (owner_is (vehicle_heap w) a) (vehicles w)
          - (if Nat.eqb a (owner v) then 1 else 0)
          + (if Nat.eqb a new_owner then 1 else 0))).
Proof.
  intros Hw Hn Hnd. rewrite update_vehicle_owner_run by done.
  destruct (List.find _ _) as [vehicle|] eqn:Hfind; [|by left].
  destruct (find_vehicle_Some _ _ _ Hw Hfind) as (Hin & v & Hv & Hplate).
  rewrite Hv.
  pose proof (registered_owner_valid w vehicle v Hw Hv) as Ho.
  destruct (same_person _ _ _) eqn:Hsame; [by left|]. right.
  exists vehicle, v. split; [done|]. split; [done|]. split.
  { intros Heq. rewrite Heq, same_person_refl in Hsame; done. }
  destruct (release (owner v) w) as [r w1] eqn:Hrel.
  destruct (release_frame _ _ _ _ Hrel) as (Hph & Hvh & Hvs & _).
  pose proof (fun a => release_taken_off _ a _ _ _ Hrel) as Hcount.
  destruct r as [[]|e]; simpl; [right | by left].
  split; [done|]. intros a. unfold reassigned.
  set (w2 := set_vehicle vehicle (set_owner v new_owner) w1).
  change (bump increment_vehicle_count new_owner (add_owner new_owner w2))
    with (acquire new_owner w2).
  split.
  - rewrite acquire_count by (subst w2; simpl; by rewrite Hph, length_alter).
    change (count_of w2 a) with (count_of w1 a). by rewrite Hcount.
  - destruct (add_owner_frame new_owner w2) as (_ & Hvh2 & Hvs2).
    unfold acquire. simpl. rewrite Hvh2, Hvs2. subst w2. simpl.
    rewrite Hvh, Hvs, (tally_reassign _ _ _ v) by done.
    by rewrite (Nat.eqb_sym a (owner v)), (Nat.eqb_sym a new_owner).
Qed.

Lemma tally_frame (w w' : World) (a : ref) :
  vehicle_heap w' = vehicle_heap w -> vehicles w' = vehicles w ->
  tally (owner_is (vehicle_heap w') a) (vehicles w')
  = tally (owner_is (vehicle_heap w) a) (vehicles w).
Proof. by intros -> ->. Qed.

Lemma tally_new_vehicle (p d : string) (o : ref) (w : World) (a : ref) :
  well_formed w ->
  tally (owner_is (vehicle_heap w ++ [mkVehicle p d o]) a) (vehicles w)
  = tally (owner_is (vehicle_heap w) a) (vehicles w).
Proof.
  intros Hw. apply tally_ext. eapply Forall_impl; [apply Hw|].
  intros y Hy. simpl in Hy. unfold owner_is. by rewrite lookup_app_l.
Qed.

Lemma count_of_new_person (p : Person) (w : World) (a : ref) :
  vehicle_count p = 0 -> count_of (new_person p w) a = count_of w a.
Proof.
  intros Hp. unfold count_of. simpl.
  destruct (decide (a < length (person_heap w))%nat) as [Ha|Ha].
  - by rewrite lookup_app_l.
  - rewrite lookup_app_r by lia. rewrite (lookup_ge_None_2 (person_heap w)) by lia.
    destruct (a - length (person_heap w))%nat as [|k]; [done|].
    by destruct k.
Qed.

Lemma registered_owner_tally (w : World) (vehicle : ref) (v : Vehicle) :
  vehicle ∈ vehicles w -> vehicle_heap w !! vehicle = Some v ->
  0 < tally (owner_is (vehicle_heap w) (owner v)) (vehicles w).
Proof.
  intros Hin Hv. eapply tally_positive; [done|].
  rewrite (owner_is_lookup _ _ _ v) by done. apply Nat.eqb_refl.
Qed.

Lemma exec_bounded (c : call) (w : World) :
  well_formed w -> NoDup (plates w) -> call_ok c w = true ->
  bounded w -> bounded (exec c w).
Proof.
  intros Hw Hnd Hok Hb a. specialize (Hb a).
  destruct c as [n s x|p d o|v|p o|p]; simpl in *.
  - by rewrite count_of_new_person.
  - change (count_of (new_vehicle (mkVehicle p d o) w) a) with (count_of w a).
    by rewrite tally_new_vehicle.
  - apply bool_decide_eq_true in Hok.
    destruct (lookup_lt_is_Some_2 _ _ Hok) as [u Hu].
    destruct (insert_vehicle_deltas v u w Hw Hu) as [->|[_ Hd]]; [done|].
    destruct (Hd a) as [-> ->]. destruct (Nat.eqb a (owner u)); lia.
  - apply bool_decide_eq_true in Hok.
    destruct (update_vehicle_owner_deltas p o w Hw Hok (vehicles_NoDup w Hnd))
      as [->|(vehicle & v & Hin & Hv & Hne & Hcases)]; [done|].
    pose proof (registered_owner_tally w vehicle v Hin Hv) as Hpos.
    destruct Hcases as [(_ & Hvh & Hvs & Hd)|(_ & Hd)].
    + rewrite (tally_frame w) by done. rewrite Hd. unfold taken_off.
      destruct (Nat.eqb_spec a (owner v)) as [->|_]; simpl; [|lia].
      destruct (Z.ltb_spec 0 (count_of w (owner v))); lia.
    + destruct (Hd a) as [-> ->]. unfold taken_off.
      destruct (Nat.eqb_spec a (owner v)) as [Ha|Ha],
        (Nat.eqb_spec a o) as [Ha'|Ha']; simpl;
        try (exfalso; congruence); try subst a;
        destruct (Z.ltb_spec 0 (count_of w (owner v))); lia.
  - destruct (delete_vehicle_deltas p w Hw)
      as [->|(vehicle & v & Hin & Hv & Hd)]; [done|].
    pose proof (registered_owner_tally w vehicle v Hin Hv) as Hpos.
    destruct (Hd a) as [-> ->]. unfold taken_off.
    destruct (Nat.eqb_spec a (owner v)) as [->|_]; simpl; [|lia].
    destruct (Z.ltb_spec 0 (count_of w (owner v))); lia.
Qed.

(** X9: in every reachable state (one object per Person or not, and also
    after a call that raised) the counter of every Person object is at
    least 0 and at most the number of registered vehicles whose owner is
    that object. *)
Theorem counter_bounds (cs : list call) (w : World) (a : ref) :
  run cs init = Some w ->
  0 <= count_of w a <= tally (owner_is (vehicle_heap w) a) (vehicles w).
Proof.
  intros Hrun.
  assert (well_formed w /\ NoDup (plates w) /\ bounded w) as (_ & _ & Hb).
  { eapply (run_invariant
              (fun w => well_formed w /\ NoDup (plates w) /\ bounded w));
      [| |done].
    - intros c w0 (Hw0 & Hnd0 & Hb0) Hok.
      split; [by apply exec_well_formed|].
      split; [by apply exec_plates | by apply exec_bounded].
    - split; [apply init_well_formed|]. split; [constructor|].
      intros x. unfold count_of, tally. simpl. lia. }
  apply Hb.
Qed.

Lemma counter_bounds_witness :
  0 <= count_of second_john_left 1%nat
  <= tally (owner_is (vehicle_heap second_john_left) 1%nat)
       (vehicles second_john_left).
Proof.
  apply (counter_bounds (two_johns ++ [DeleteVehicle "abc0"])).
  reflexivity.
Defined.

Lemma run_quiet_invariant (P : World -> Prop) :
  (forall c w, P w -> call_ok c w = true -> raises c w = false -> P (exec c w)) ->
  forall cs w w', P w -> run_quiet cs w = Some w' -> P w'.
Proof.
  intros Hstep cs. induction cs as [|c cs IH]; intros w w' Hw Hrun; simpl in *.
  - by simplify_eq.
  - destruct (call_ok c w) eqn:Hok; [|done].
    destruct (raises c w) eqn:Hraise; [done|]. simpl in Hrun.
    eapply IH; [|done]. by apply Hstep.
Qed.

Lemma exec_counted (c : call) (w : World) :
  well_formed w -> NoDup (plates w) -> call_ok c w = true ->
  raises c w = false -> counted w -> counted (exec c w).
Proof.
  intros Hw Hnd Hok Hquiet Hc a. pose proof (Hc a) as Ha.
  destruct c as [n s x|p d o|v|p o|p]; simpl in *.
  - by rewrite count_of_new_person.
  - change (count_of (new_vehicle (mkVehicle p d o) w) a) with (count_of w a).
    by rewrite tally_new_vehicle.
  - apply bool_decide_eq_true in Hok.
    destruct (lookup_lt_is_Some_2 _ _ Hok) as [u Hu].
    destruct (insert_vehicle_deltas v u w Hw Hu) as [->|[_ Hd]]; [done|].
    destruct (Hd a) as [-> ->]. lia.
  - apply bool_decide_eq_true in Hok.
    destruct (update_vehicle_owner_deltas p o w Hw Hok (vehicles_NoDup w Hnd))
      as [->|(vehicle & v & Hin & Hv & Hne & Hcases)]; [done|].
    pose proof (registered_owner_tally w vehicle v Hin Hv) as Hpos.
    rewrite <- Hc in Hpos.
    destruct Hcases as [(Hraise & _)|(_ & Hd)]; [congruence|].
    destruct (Hd a) as [-> ->]. unfold taken_off.
    destruct (Z.ltb_spec 0 (count_of w (owner v))); [|lia].
    rewrite andb_true_r. lia.
  - destruct (delete_vehicle_deltas p w Hw)
      as [->|(vehicle & v & Hin & Hv & Hd)]; [done|].
    pose proof (registered_owner_tally w vehicle v Hin Hv) as Hpos.
    rewrite <- Hc in Hpos.
    destruct (Hd a) as [-> ->]. unfold taken_off.
    destruct (Z.ltb_spec 0 (count_of w (owner v))); [|lia].
    rewrite andb_true_r. lia.
Qed.

(** X10: as long as no call has raised, the counter of every Person object
    is exactly the number of registered vehicles whose owner is that very
    object; this holds also when equal Persons are held in distinct
    objects, where each object keeps its own count. *)
Theorem counter_counts_own_vehicles (cs : list call) (w : World) (a : ref) :
  run_quiet cs init = Some w ->
  count_of w a = tally (owner_is (vehicle_heap w) a) (vehicles w).
Proof.
  intros Hrun.
  assert (well_formed w /\ NoDup (plates w) /\ counted w) as (_ & _ & Hc).
  { eapply (run_quiet_invariant
              (fun w => well_formed w /\ NoDup (plates w) /\ counted w));
      [| |done].
    - intros c w0 (Hw0 & Hnd0 & Hc0) Hok Hquiet.
      split; [by apply exec_well_formed|].
      split; [by apply exec_plates | by apply exec_counted].
    - split; [apply init_well_formed|]. split; [constructor | by intros x]. }
  apply Hc.
Qed.

Lemma counter_counts_own_vehicles_witness :
  count_of two_johns_registered 1%nat
  = tally (owner_is (vehicle_heap two_johns_registered) 1%nat)
      (vehicles two_johns_registered).
Proof.
  apply (counter_counts_own_vehicles two_johns). reflexivity.
Defined.

(** ** Calls that raise *)

Lemma Forall_existsb_false (f : ref -> bool) (l : list ref) :
  Forall (fun y => f y = false) l -> existsb f l = false.
Proof. induction 1 as [|a l Ha Hl IH]; simpl; [done|]. by rewrite Ha, IH. Qed.

Lemma release_raise (o : ref) (w w1 : World) (e : exn) :
  release o w = (Raise e, w1) ->
  e = ValueError /\ w1 = bump decrement_vehicle_count o w /\
  count_of w1 o = 0 /\ known_owner w o = false.
Proof.
  unfold release. cbv zeta.
  destruct (Z.eqb_spec (count_of (bump decrement_vehicle_count o w) o) 0)
    as [Hzero|]; [|done].
  destruct (remove_first _ _) as [l|] eqn:Hrem; [done|].
  intros [= <- <-]. repeat split; try done.
  apply remove_first_None in Hrem. unfold known_owner.
  apply Forall_existsb_false. eapply Forall_impl; [exact Hrem|].
  intros el Hel. simpl in Hel.
  by rewrite same_person_alter in Hel by apply decrement_keeps_identity.
Qed.

(** X11: a call that raises does not roll back.  [update_vehicle_owner]
    and [delete_vehicle] raise nothing but [ValueError], and only when the
    old owner's counter has reached 0 while no equal Person is in the owners
    list; the state left behind has that counter decremented and, for
    [delete_vehicle], the vehicle already taken out of the list, everything
    else as before the call. *)
Theorem raise_leaves_partial_state (w : World) :
  well_formed w ->
  (forall plate new_owner e,
     (new_owner < length (person_heap w))%nat ->
     fst (update_vehicle_owner plate new_owner w) = Raise e ->
     e = ValueError /\
     exists vehicle v,
       _find_vehicle_by_plate plate w = Return (Some vehicle) /\
       vehicle_heap w !! vehicle = Some v /\
       known_owner w (owner v) = false /\
       snd (update_vehicle_owner plate new_owner w)
       = bump decrement_vehicle_count (owner v) w /\
       count_of (snd (update_vehicle_owner plate new_owner w)) (owner v) = 0) /\
  (forall plate e,
     fst (delete_vehicle plate w) = Raise e ->
     e = ValueError /\
     exists vehicle v l1 l2,
       _find_vehicle_by_plate plate w = Return (Some vehicle) /\
       vehicle_heap w !! vehicle = Some v /\
       vehicles w = l1 ++ vehicle :: l2 /\
       known_owner w (owner v) = false /\
       snd (delete_vehicle plate w)
       = bump decrement_vehicle_count (owner v) (set_vehicles (l1 ++ l2) w) /\
       count_of (snd (delete_vehicle plate w)) (owner v) = 0).
Proof.
  intros Hw. split.
  - intros plate new_owner e Hn. rewrite find_vehicle_valid by done.
    rewrite update_vehicle_owner_run by done.
    destruct (List.find _ _) as [vehicle|] eqn:Hfind; [|done].
    destruct (find_vehicle_Some _ _ _ Hw Hfind) as (_ & v & Hv & _).
    rewrite Hv. destruct (same_person _ _ _); [done|].
    destruct (release (owner v) w) as [[[]|e'] w1] eqn:Hrel; [done|].
    simpl. intros [= ->].
    destruct (release_raise _ _ _ _ Hrel) as (-> & -> & Hzero & Hknown).
    split; [done|]. by exists vehicle, v.
  - intros plate e. rewrite find_vehicle_valid by done.
    rewrite delete_vehicle_run by done.
    destruct (List.find _ _) as [vehicle|] eqn:Hfind; [|done].
    destruct (find_vehicle_Some _ _ _ Hw Hfind) as (_ & v & Hv & _).
    destruct (find_remove_first _ _ _ Hfind) as [l Hrem]. rewrite Hv, Hrem.
    destruct (find_remove_first_split _ _ _ _ Hfind Hrem)
      as (l1 & l2 & Hvs & ->).
    destruct (release (owner v) _) as [[[]|e'] w1] eqn:Hrel; [done|].
    simpl. intros [= ->].
    destruct (release_raise _ _ _ _ Hrel) as (-> & -> & Hzero & Hknown).
    split; [done|]. by exists vehicle, v, l1, l2.
Qed.

Lemma raise_leaves_partial_state_witness :
  exists vehicle v l1 l2,
    _find_vehicle_by_plate "abc1" second_john_left = Return (Some vehicle) /\
    vehicle_heap second_john_left !! vehicle = Some v /\
    vehicles second_john_left = l1 ++ vehicle :: l2 /\
    known_owner second_john_left (owner v) = false /\
    snd (delete_vehicle "abc1" second_john_left)
    = bump decrement_vehicle_count (owner v)
        (set_vehicles (l1 ++ l2) second_john_left) /\
    count_of (snd (delete_vehicle "abc1" second_john_left)) (owner v) = 0.
Proof.
  assert (well_formed second_john_left) as Hw
    by (split; simpl; repeat constructor).
  apply (proj2 (raise_leaves_partial_state second_john_left Hw)
           "abc1" ValueError).
  reflexivity.
Defined.

(** X12: on every state whose references point to existing objects,
    [insert_vehicle] never raises and returns 0 or 1;
    [update_vehicle_owner] and [delete_vehicle] either return 0 or 1 or raise
    [ValueError]. *)
Theorem call_outcomes (w : World) :
  well_formed w ->
  (forall vehicle, (vehicle < length (vehicle_heap w))%nat ->
     fst (insert_vehicle vehicle w) = Return 0 \/
     fst (insert_vehicle vehicle w) = Return 1) /\
  (forall plate new_owner, (new_owner < length (person_heap w))%nat ->
     fst (update_vehicle_owner plate new_owner w) = Return 0 \/
     fst (update_vehicle_owner plate new_owner w) = Return 1 \/
     fst (update_vehicle_owner plate new_owner w) = Raise ValueError) /\
  (forall plate,
     fst (delete_vehicle plate w) = Return 0 \/
     fst (delete_vehicle plate w) = Return 1 \/
     fst (delete_vehicle plate w) = Raise ValueError).
Proof.
  intros Hw. split; [|split].
  - intros vehicle Hlt. destruct (lookup_lt_is_Some_2 _ _ Hlt) as [v Hv].
    rewrite (insert_vehicle_run w vehicle v) by done.
    destruct (existsb _ _); auto.
  - intros plate new_owner Hn. rewrite update_vehicle_owner_run by done.
    destruct (List.find _ _) as [vehicle|] eqn:Hfind; [|by auto].
    destruct (find_vehicle_Some _ _ _ Hw Hfind) as (_ & v & -> & _).
    destruct (same_person _ _ _); [by auto|].
    destruct (release (owner v) w) as [[[]|e] w1] eqn:Hrel; [by auto|].
    apply release_raises in Hrel as ->. auto.
  - intros plate. rewrite delete_vehicle_run by done.
    destruct (List.find _ _) as [vehicle|] eqn:Hfind; [|by auto].
    destruct (find_vehicle_Some _ _ _ Hw Hfind) as (_ & v & -> & _).
    destruct (find_remove_first _ _ _ Hfind) as [l ->].
    destruct (release (owner v) _) as [[[]|e] w1] eqn:Hrel; [by auto|].
    apply release_raises in Hrel as ->. auto.
Qed.

Lemma call_outcomes_witness :
  fst (insert_vehicle 0%nat second_john_left) = Return 0 \/
  fst (insert_vehicle 0%nat second_john_left) = Return 1.
Proof.
  assert (well_formed second_john_left) as Hw
    by (split; simpl; repeat constructor).
  apply (proj1 (call_outcomes second_john_left Hw) 0%nat).
  simpl. lia.
Defined.

(** ** One object per Person: transfers, deletions and round trips *)

Lemma scenario_state_run : run register_scenario init = Some scenario_state.
Proof. reflexivity. Qed.

Lemma scenario_state_distinct : distinct_persons (person_heap scenario_state).
Proof.
  intros a b Ha Hb. simpl in Ha, Hb.
  destruct a as [|[|a]]; destruct b as [|[|b]]; try done; simpl in *; lia.
Qed.

(** X14: with one object per Person, in every reachable state a transfer
    of a registered vehicle to a different Person returns 1; the vehicles
    list is unchanged, the vehicle points to the new owner and no other
    vehicle object changes; the old owner's counter goes down by one and the
    new owner's up by one; afterwards the owners list holds exactly the
    objects with a positive counter. *)
Theorem transfer_between_persons (cs : list call) (w : World)
    (plate : string) (new_owner vehicle : ref) (v : Vehicle) :
  run cs init = Some w ->
  distinct_persons (person_heap w) ->
  (new_owner < length (person_heap w))%nat ->
  _find_vehicle_by_plate plate w = Return (Some vehicle) ->
  vehicle_heap w !! vehicle = Some v ->
  owner v <> new_owner ->
  exists w',
    update_vehicle_owner plate new_owner w = (Return 1, w') /\
    vehicles w' = vehicles w /\
    vehicle_heap w' = <[vehicle := set_owner v new_owner]> (vehicle_heap w) /\
    (forall a,
       count_of w' a
       = count_of w a - (if Nat.eqb a (owner v) then 1 else 0)
         + (if Nat.eqb a new_owner then 1 else 0)) /\
    (forall a, a ∈ owners w' <-> 0 < count_of w' a).
Proof.
  intros Hrun Hd Hn Hfind Hv Hne.
  pose proof (reachable_consistent cs w Hrun Hd) as Hcons.
  rewrite find_vehicle_valid in Hfind by apply Hcons.
  injection Hfind as Hfind.
  by apply update_vehicle_owner_transfers.
Qed.

Lemma transfer_between_persons_witness :
  exists w',
    update_vehicle_owner "abc0" 1%nat scenario_state = (Return 1, w') /\
    vehicles w' = [0; 1; 2]%nat /\
    (forall a, a ∈ owners w' <-> 0 < count_of w' a).
Proof.
  destruct (transfer_between_persons register_scenario scenario_state
              "abc0" 1%nat 0%nat (mkVehicle "abc0" "20221122" 0%nat))
    as (w' & Hrun & Hvs & _ & _ & Hmem).
  - reflexivity.
  - apply scenario_state_distinct.
  - simpl. lia.
  - reflexivity.
  - reflexivity.
  - simpl. lia.
  - exists w'. split; [exact Hrun|]. split; [exact Hvs | exact Hmem].
Defined.

(** X15: with one object per Person, in every reachable state deleting a
    registered plate returns 1; exactly the found vehicle leaves the vehicles
    list, the others keep their order; no vehicle object changes; the
    owner's counter goes down by one; afterwards the owners list holds
    exactly the objects with a positive counter. *)
Theorem delete_registered_vehicle (cs : list call) (w : World)
    (plate : string) (vehicle : ref) (v : Vehicle) :
  run cs init = Some w ->
  distinct_persons (person_heap w) ->
  _find_vehicle_by_plate plate w = Return (Some vehicle) ->
  vehicle_heap w !! vehicle = Some v ->
  exists w' l1 l2,
    delete_vehicle plate w = (Return 1, w') /\
    vehicles w = l1 ++ vehicle :: l2 /\
    vehicles w' = l1 ++ l2 /\
    vehicle_heap w' = vehicle_heap w /\
    (forall a,
       count_of w' a = count_of w a - (if Nat.eqb a (owner v) then 1 else 0)) /\
    (forall a, a ∈ owners w' <-> 0 < count_of w' a).
Proof.
  intros Hrun Hd Hfind Hv.
  pose proof (reachable_consistent cs w Hrun Hd) as Hcons.
  rewrite find_vehicle_valid in Hfind by apply Hcons.
  injection Hfind as Hfind.
  by apply delete_vehicle_registered.
Qed.

Lemma delete_registered_vehicle_witness :
  exists w' l1 l2,
    delete_vehicle "abc1" scenario_state = (Return 1, w') /\
    vehicles scenario_state = l1 ++ 1%nat :: l2 /\
    vehicles w' = l1 ++ l2.
Proof.
  destruct (delete_registered_vehicle register_scenario scenario_state
              "abc1" 1%nat (mkVehicle "abc1" "20221123" 1%nat))
    as (w' & l1 & l2 & Hrun & Hvs & Hvs' & _).
  - reflexivity.
  - apply scenario_state_distinct.
  - reflexivity.
  - reflexivity.
  - exists w', l1, l2. split; [exact Hrun|]. split; [exact Hvs | exact Hvs'].
Defined.

Lemma remove_first_app_last (f : ref -> bool) (l : list ref) (x : ref) :
  Forall (fun y => f y = false) l -> f x = true ->
  remove_first f (l ++ [x]) = Some l.
Proof.
  intros Hl Hx. induction Hl as [|a l Ha Hl IH]; simpl.
  - by rewrite Hx.
  - by rewrite Ha, IH.
Qed.

Lemma alter_decrement_increment (o : ref) (h : list Person) :
  Forall (fun p => 0 <= vehicle_count p) h ->
  alter decrement_vehicle_count o (alter increment_vehicle_count o h) = h.
Proof.
  intros Hh. apply list_eq. intros i.
  destruct (decide (o = i)) as [->|Hne].
  - rewrite !list_lookup_alter_eq.
    destruct (h !! i) as [p|] eqn:Hp; simpl; [|done]. f_equal.
    apply decrement_increment.
    by apply (Forall_lookup_1 _ _ _ _ Hh Hp).
  - by rewrite !list_lookup_alter_ne.
Qed.

Lemma counted_nonneg (w : World) :
  counted w -> Forall (fun p => 0 <= vehicle_count p) (person_heap w).
Proof.
  intros Hc. apply Forall_lookup. intros i p Hp.
  pose proof (Hc i) as Hi. unfold count_of in Hi. rewrite Hp in Hi.
  rewrite Hi. apply tally_nonneg.
Qed.

(** X16: with one object per Person, in every reachable state inserting a
    vehicle with a new plate and then deleting that plate both return 1 and
    restore the state exactly: the vehicles list, the owners list (order
    included) and every counter. *)
Theorem insert_delete_round_trip (cs : list call) (w : World)
    (vehicle : ref) (v : Vehicle) :
  run cs init = Some w ->
  distinct_persons (person_heap w) ->
  vehicle_heap w !! vehicle = Some v ->
  Some (registration_plate v) ∉ plates w ->
  exists w1,
    insert_vehicle vehicle w = (Return 1, w1) /\
    delete_vehicle (registration_plate v) w1 = (Return 1, w).
Proof.
  intros Hrun Hd Hv Hfresh.
  pose proof (reachable_consistent cs w Hrun Hd) as [Hw Hnd [Hno Hmem] Hc].
  pose proof (registered_owner_valid w vehicle v Hw Hv) as Ho.
  assert (vehicle < length (vehicle_heap w))%nat as Hlt
    by (by eapply lookup_lt_Some).
  pose proof (insert_vehicle_well_formed vehicle w Hw Hlt) as Hw1.
  revert Hw1. rewrite (insert_vehicle_run w vehicle v) by done.
  destruct (existsb _ (vehicles w)) eqn:Hdup.
  { by apply (duplicate_plate_iff w vehicle v Hw Hv) in Hdup. }
  simpl. intros Hw1. eexists. split; [done|].
  assert (Forall (fun y => has_plate (vehicle_heap w) (registration_plate v) y
                           = false) (vehicles w)) as Hnone.
  { apply existsb_false_Forall.
    rewrite <- Hdup. apply existsb_same. intros el. symmetry.
    by apply same_plate_has_plate. }
  assert (has_plate (vehicle_heap w) (registration_plate v) vehicle = true)
    as Hplate.
  { unfold has_plate. rewrite Hv. apply String.eqb_refl. }
  pose proof (counted_nonneg w Hc) as Hnonneg.
  rewrite delete_vehicle_run by done.
  unfold add_owner in *.
  change (known_owner (set_vehicles (vehicles w ++ [vehicle]) w) (owner v))
    with (known_owner w (owner v)) in *.
  destruct (known_owner w (owner v)) eqn:Hknown; simpl in *.
  - rewrite find_app_last, Hv, remove_first_app_last by done.
    unfold release, count_of, bump, set_vehicles, set_owners. simpl.
    rewrite !alter_decrement_increment by done.
    assert (0 < count_of w (owner v)) as Hpos.
    { apply Hmem. by apply known_owner_distinct. }
    unfold count_of in Hpos.
    destruct (person_heap w !! owner v) as [p|]; [|lia].
    destruct (Z.eqb_spec (vehicle_count p) 0); [lia|].
    by destruct w.
  - rewrite find_app_last, Hv, remove_first_app_last by done.
    unfold release, count_of, bump, set_vehicles, set_owners. simpl.
    rewrite !alter_decrement_increment by done.
    assert (count_of w (owner v) = 0) as Hzero.
    { assert (~ 0 < count_of w (owner v)) as Hnot.
      { rewrite <- Hmem. intros Hin%known_owner_distinct; [|done..].
        congruence. }
      pose proof (Hc (owner v)) as Hco.
      pose proof (tally_nonneg (owner_is (vehicle_heap w) (owner v)) (vehicles w)).
      lia. }
    unfold count_of in Hzero.
    destruct (lookup_lt_is_Some_2 _ _ Ho) as [p Hp]. rewrite Hp in Hzero |- *.
    rewrite Hzero. simpl.
    rewrite remove_first_app_last.
    + by destruct w.
    + apply existsb_false_Forall. exact Hknown.
    + by apply same_person_refl.
Qed.

Lemma insert_delete_round_trip_witness :
  exists w1,
    insert_vehicle 3%nat spare_vehicle_state = (Return 1, w1) /\
    delete_vehicle "new" w1 = (Return 1, spare_vehicle_state).
Proof.
  apply (insert_delete_round_trip
           (register_scenario ++ [NewVehicle "new" "20230101" 0%nat])
           spare_vehicle_state 3%nat (mkVehicle "new" "20230101" 0%nat)).
  - reflexivity.
  - apply scenario_state_distinct.
  - reflexivity.
  - unfold plates. simpl. rewrite !elem_of_cons, elem_of_nil.
    intros [Hin|[Hin|[Hin|Hin]]]; try discriminate Hin. exact Hin.
Defined.

(** ** A transfer shows in the listing *)

(** X17: whenever [update_vehicle_owner(plate, new_owner)] returns 1 (one
    object per Person or not), the vehicle found under the plate is
    afterwards in [list_vehicle_by_owner(new_owner)] and no longer in
    [list_vehicle_by_owner] of its old owner. *)
Theorem transfer_shows_in_listing (plate : string) (new_owner : ref) (w w' : World) :
  well_formed w -> (new_owner < length (person_heap w))%nat ->
  update_vehicle_owner plate new_owner w = (Return 1, w') ->
  exists vehicle v l_new l_old,
    _find_vehicle_by_plate plate w = Return (Some vehicle) /\
    vehicle_heap w !! vehicle = Some v /\
    list_vehicle_by_owner new_owner w' = Return l_new /\ vehicle ∈ l_new /\
    list_vehicle_by_owner (owner v) w' = Return l_old /\ vehicle ∉ l_old.
Proof.
  intros Hw Hn Hrun.
  pose proof (update_vehicle_owner_well_formed plate new_owner w Hw Hn) as Hw'.
  rewrite Hrun in Hw'. simpl in Hw'.
  rewrite find_vehicle_valid by done. revert Hrun.
  rewrite update_vehicle_owner_run by done.
  destruct (List.find _ _) as [vehicle|] eqn:Hfind; [|done].
  destruct (find_vehicle_Some _ _ _ Hw Hfind) as (Hin & v & Hv & _).
  rewrite Hv. pose proof (registered_owner_valid w vehicle v Hw Hv) as Ho.
  destruct (same_person _ _ _) eqn:Hsame; [done|].
  destruct (release (owner v) w) as [[[]|e] w1] eqn:Hrel; [|done].
  destruct (release_frame _ _ _ _ Hrel) as (Hph & Hvh & Hvs & _).
  intros [= <-].
  set (w2 := set_vehicle vehicle (set_owner v new_owner) w1) in *.
  destruct (add_owner_frame new_owner w2) as (Hph2 & Hvh2 & Hvs2).
  assert (person_heap (reassigned vehicle v new_owner w1)
          = alter increment_vehicle_count new_owner
              (alter decrement_vehicle_count (owner v) (person_heap w)))
    as Hheap.
  { unfold reassigned. fold w2. simpl. rewrite Hph2. subst w2. simpl.
    by rewrite Hph. }
  assert (vehicle_heap (reassigned vehicle v new_owner w1) !! vehicle
          = Some (set_owner v new_owner)) as Hv'.
  { unfold reassigned. fold w2. simpl. rewrite Hvh2. subst w2. simpl.
    rewrite Hvh. apply list_lookup_insert_eq. by eapply lookup_lt_Some. }
  assert (vehicle ∈ vehicles (reassigned vehicle v new_owner w1)) as Hin'.
  { unfold reassigned. fold w2. simpl. rewrite Hvs2. subst w2. simpl.
    by rewrite Hvs. }
  assert (forall o,
            same_person (person_heap (reassigned vehicle v new_owner w1))
              new_owner o
            = same_person (person_heap w) new_owner o) as Hsame'.
  { intros o. rewrite Hheap.
    rewrite same_person_alter by apply increment_keeps_identity.
    by rewrite same_person_alter by apply decrement_keeps_identity. }
  exists vehicle, v. do 2 eexists. split; [done|]. split; [done|].
  split; [apply list_vehicle_by_owner_valid; [done|]|split;
    [|split; [apply list_vehicle_by_owner_valid; [done|]|]]].
  - rewrite Hheap, !length_alter. done.
  - apply list_elem_of_In, filter_In. split; [by apply list_elem_of_In|].
    unfold owned_by. rewrite Hv'. simpl. rewrite Hsame'.
    by apply same_person_refl.
  - rewrite Hheap, !length_alter. done.
  - intros [_ Hown]%list_elem_of_In%filter_In.
    unfold owned_by in Hown. rewrite Hv' in Hown. simpl in Hown.
    rewrite Hsame', same_person_sym in Hown. congruence.
Qed.

Lemma transfer_shows_in_listing_witness :
  exists w' vehicle v l_new l_old,
    update_vehicle_owner "abc0" 1%nat scenario_state = (Return 1, w') /\
    _find_vehicle_by_plate "abc0" scenario_state = Return (Some vehicle) /\
    vehicle_heap scenario_state !! vehicle = Some v /\
    list_vehicle_by_owner 1%nat w' = Return l_new /\ vehicle ∈ l_new /\
    list_vehicle_by_owner (owner v) w' = Return l_old /\ vehicle ∉ l_old.
Proof.
  exists (snd (update_vehicle_owner "abc0" 1%nat scenario_state)).
  destruct (transfer_shows_in_listing "abc0" 1%nat scenario_state
              (snd (update_vehicle_owner "abc0" 1%nat scenario_state)))
    as (vehicle & v & l_new & l_old & H).
  - split; simpl; repeat constructor.
  - simpl. lia.
  - reflexivity.
  - exists vehicle, v, l_new, l_old. split; [reflexivity | exact H].
Defined.
